(** * Advanced Wordlist Generator: the mutation and expansion engine

    A shallow embedding of [src/Advanced_WLG.py] -- the leet expander
    [leetspeak_variations], the mutation engine [process_combo], the
    enumeration of combinations and the coordinator [generate_wordlist] --
    and the properties that the specification states about them.

    Conventions of the embedding.
    - Tokens are ASCII text: a Python [str] is a [string] of 8-bit
      characters, and [str.lower] on one character is [lower], which maps
      'A'..'Z' to 'a'..'z' and leaves every other character alone.
    - A Python object that may sit in the token list or in the year list is
      a [pyval]: a [str], [None] or an [int].  The operations that Python
      type-checks at run time ([str.join], [str + x]) return a [result].
    - A Python [set] of strings is a [gset string]; a [dict] is a [gmap]. *)

From Stdlib Require Import Ascii.
From stdpp Require Import base option list gmap strings.

Local Open Scope string_scope.
#[local] Set Warnings "-clear-no-such-hyp".

(** ** Python values and run-time errors *)

Inductive pyval : Type :=
  | PStr (s : string)
  | PNone
  | PInt (n : Z).

Global Instance pyval_eq_dec : EqDecision pyval.
Proof. solve_decision. Defined.

(** The [TypeError]s that the engine can raise on a value that is not a
    [str]: [sep.join(items)] names the index and the offending item,
    [s + v] names its right operand, and [v + s] its left one. *)
Inductive py_error : Type :=
  | JoinTypeError (index : nat) (item : pyval)
  | ConcatTypeError (operand : pyval)
  | OperandTypeError (left : pyval).

Global Instance py_error_eq_dec : EqDecision py_error.
Proof. solve_decision. Defined.

Inductive result (A : Type) : Type :=
  | Ok (a : A)
  | Raise (e : py_error).
Global Arguments Ok {A} a.
Global Arguments Raise {A} e.

Global Instance result_ret : MRet result := fun A a => Ok a.
Global Instance result_bind : MBind result := fun A B f m =>
  match m with
  | Ok a => f a
  | Raise e => Raise e
  end.

Definition is_Ok {A} (r : result A) : bool :=
  match r with Ok _ => true | Raise _ => false end.

(** [for x in l: body], where the body updates the loop state [s] or raises. *)
Fixpoint for_each {A S : Type} (l : list A) (body : A -> S -> result S) (s : S)
  : result S :=
  match l with
  | [] => Ok s
  | x :: l' => s' ← body x s; for_each l' body s'
  end.

(** ** Constants *)


Definition JOIN_SYMBOLS : list string :=
  [""; "_"; "@"; "-"; "."; "$"; "#"; "!"; "&"].

Definition LEET_ENTRIES : list (ascii * list ascii) :=
  [ ("a", ["a"; "@"; "4"]);
    ("b", ["b"; "8"]);
    ("e", ["e"; "3"]);
    ("g", ["g"; "9"]);
    ("i", ["i"; "1"; "!"]);
    ("l", ["l"; "1"]);
    ("o", ["o"; "0"]);
    ("s", ["s"; "$"; "5"]);
    ("t", ["t"; "7"]);
    ("z", ["z"; "2"]) ]%char.

Definition LEET_DICT : gmap ascii (list ascii) := list_to_map LEET_ENTRIES.

(** ** Strings *)

(** [c.lower()] for a one-character string. *)
Definition lower (c : ascii) : ascii :=
  let n := nat_of_ascii c in
  if ((65 <=? n) && (n <=? 90))%nat then ascii_of_nat (n + 32) else c.

Fixpoint lower_string (s : string) : string :=
  match s with
  | EmptyString => EmptyString
  | String c rest => String (lower c) (lower_string rest)
  end.

(** ** Leet expander *)

Fixpoint leetspeak_variations (word : string) : list string :=
  match word with
  | EmptyString => [""]
  | String c rest =>
      let first_char := lower c in
      let variations := leetspeak_variations rest in
      match LEET_DICT !! first_char with
      | Some subs =>
          char ← subs; var ← variations; [String char var]
      | None => (fun var => String first_char var) <$> variations
      end
  end.

(** ** Mutation engine *)

(** The items of [sep.join(items)] are checked from left to right. *)
Fixpoint join_items (index : nat) (items : list pyval) : result (list string) :=
  match items with
  | [] => Ok []
  | PStr s :: rest => strs ← join_items (S index) rest; Ok (s :: strs)
  | v :: _ => Raise (JoinTypeError index v)
  end.

(** [sep.join(items)] *)
Definition py_join (sep : string) (items : list pyval) : result string :=
  strs ← join_items 0 items; Ok (String.concat sep strs).

(** [s + v] for a string [s] *)
Definition str_add (s : string) (v : pyval) : result string :=
  match v with
  | PStr t => Ok (s ++ t)
  | _ => Raise (ConcatTypeError v)
  end.

(** [v + s] for a string [s] *)
Definition add_str (v : pyval) (s : string) : result string :=
  match v with
  | PStr t => Ok (t ++ s)
  | _ => Raise (OperandTypeError v)
  end.

(** The loop [for year in years] of [process_combo], which both of its
    occurrences run on a word ([variant] or [joined]):
    [mangled_words.add(word + year); mangled_words.add(year + word)]. *)
Definition add_year_affixes (word : string) (years : list pyval)
    (mangled_words : gset string) : result (gset string) :=
  for_each years (fun year mangled_words =>
    suffixed ← str_add word year;
    prefixed ← add_str year word;
    Ok ({[prefixed]} ∪ ({[suffixed]} ∪ mangled_words))) mangled_words.

Definition leet_variants_of (base_word : string) : list string :=
  if (12 <? String.length base_word)%nat then [base_word]
  else leetspeak_variations base_word.

Definition process_combo (combo years : list pyval) : result (gset string) :=
  base_word ← py_join "" combo;
  let leet_variants := leet_variants_of base_word in
  for_each leet_variants (fun variant mangled_words =>
    mangled_words ← add_year_affixes variant years ({[variant]} ∪ mangled_words);
    for_each JOIN_SYMBOLS (fun symbol mangled_words =>
      joined ← py_join symbol combo;
      add_year_affixes joined years ({[joined]} ∪ mangled_words))
      mangled_words) ∅.

(** ** Combination enumerator *)

(** [itertools.combinations(l, r)]: the [r]-element subsequences of [l], in
    lexicographic order of the positions they select. *)
Fixpoint combinations {A : Type} (l : list A) (r : nat) : list (list A) :=
  match r with
  | 0 => [[]]
  | S r' =>
      match l with
      | [] => []
      | x :: l' => (cons x <$> combinations l' r') ++ combinations l' r
      end
  end.

(** [range(start, stop)] *)
Definition range (start stop : nat) : list nat := seq start (stop - start).

(** The list [combos] of [generate_wordlist] (and the units that [main]
    counts): [chain.from_iterable(combinations(words, r) for r in
    range(1, min(6, len(words) + 1)))]. *)
Definition all_combos {A : Type} (words : list A) : list (list A) :=
  r ← range 1 (min 6 (length words + 1)); combinations words r.

(** ** Coordinator *)

(** What the worker threads share: the counter [processed[0]] and, for each
    future (named by the position at which its combination was submitted),
    the value or the exception that the future holds once its unit ran. *)
Record pool_state : Type := PoolState {
  processed : nat;
  futures : gmap nat (result (gset string));
}.

(** [wrapped_process(combo)] run against the counter: an exception of
    [process_combo] leaves the function before the increment. *)
Definition wrapped_process (years combo : list pyval) (count : nat)
  : result (gset string) * nat :=
  match process_combo combo years with
  | Ok result => (Ok result, S count)
  | Raise e => (Raise e, count)
  end.

(** A worker runs the unit submitted at position [i]. *)
Definition run_unit (combos : list (list pyval)) (years : list pyval)
    (st : pool_state) (i : nat) : pool_state :=
  match combos !! i with
  | Some combo =>
      let '(outcome, count) := wrapped_process years combo (processed st) in
      PoolState count (<[i := outcome]> (futures st))
  | None => st
  end.

(** The pool runs the units in the order of [schedule].  The increments of
    the counter are serialised by [progress_lock] and a unit touches no
    other shared state, so an execution of the pool is the sequence in
    which its units pass through [wrapped_process]. *)
Definition run_pool (combos : list (list pyval)) (years : list pyval)
    (schedule : list nat) : pool_state :=
  foldl (run_unit combos years) (PoolState 0 ∅) schedule.

(** The executor runs every submitted unit, and runs it once. *)
Definition valid_schedule (units : nat) (schedule : list nat) : Prop :=
  schedule ≡ₚ seq 0 units.

Global Instance valid_schedule_dec units schedule :
  Decision (valid_schedule units schedule).
Proof. unfold valid_schedule. apply _. Defined.

(** What the main thread builds in [for future in future_to_combo]: the set
    [final_words], the position of the progress bar and the lines printed
    by the [except] branch (combination and error). *)
Record main_state : Type := MainState {
  final_words : gset string;
  pbar : nat;
  printed : list (list pyval * py_error);
}.

(** The loop over the futures, in the order of submission.  [future.result()]
    of a unit that never ran would block for ever: [None]. *)
Fixpoint collect (submitted : list (nat * list pyval))
    (done : gmap nat (result (gset string))) (st : main_state)
  : option main_state :=
  match submitted with
  | [] => Some st
  | (i, combo) :: rest =>
      match done !! i with
      | None => None
      | Some (Ok result) =>
          collect rest done
            (MainState (final_words st ∪ result) (S (pbar st)) (printed st))
      | Some (Raise e) =>
          collect rest done
            (MainState (final_words st) (pbar st) (printed st ++ [(combo, e)]))
      end
  end.

(** What a run of [generate_wordlist] leaves behind: the returned list
    [list(final_words)] (its order is unspecified in Python; here that of
    [elements]), the total given to the progress bar, the counter
    [processed[0]], the position of the bar and the reported errors. *)
Record run_report : Type := RunReport {
  wordlist : list string;
  estimated_total : nat;
  processed_count : nat;
  pbar_count : nat;
  error_log : list (list pyval * py_error);
}.

Definition generate_wordlist (words years : list pyval) (schedule : list nat)
  : option run_report :=
  let combos := all_combos words in
  let pool := run_pool combos years schedule in
  st ← collect (imap pair combos) (futures pool) (MainState ∅ 0 []);
  Some (RunReport (elements (final_words st)) (length combos)
          (processed pool) (pbar st) (printed st)).

(** ** Console input *)

(** [c.isspace()] on ASCII: the characters that [str.strip] removes and on
    which [str.split] cuts (tab, the line and page separators 10 to 13, the
    separators 28 to 31 and the space). *)
Definition py_isspace (c : ascii) : bool :=
  let n := nat_of_ascii c in
  ((9 <=? n) && (n <=? 13) || (28 <=? n) && (n <=? 32))%nat.

Fixpoint py_lstrip (s : string) : string :=
  match s with
  | EmptyString => EmptyString
  | String c rest => if py_isspace c then py_lstrip rest else s
  end.

Fixpoint py_rstrip (s : string) : string :=
  match s with
  | EmptyString => EmptyString
  | String c rest =>
      match py_rstrip rest with
      | EmptyString => if py_isspace c then EmptyString else String c EmptyString
      | kept => String c kept
      end
  end.

(** [s.strip()] *)
Definition py_strip (s : string) : string := py_rstrip (py_lstrip s).

(** The scan of [s.split()]: [cur] holds the characters of the word being
    read; a whitespace character closes it. *)
Fixpoint split_scan (cur : string) (s : string) : list string :=
  match s with
  | EmptyString => match cur with EmptyString => [] | _ => [cur] end
  | String c rest =>
      if py_isspace c
      then match cur with
           | EmptyString => split_scan EmptyString rest
           | _ => cur :: split_scan EmptyString rest
           end
      else split_scan (cur ++ String c EmptyString) rest
  end.

(** [s.split()] *)
Definition py_split (s : string) : list string := split_scan EmptyString s.

(** [input(prompt)] on the lines that are left on the standard input;
    [None] is [EOFError]. *)
Definition input (stdin : list string) : option (string * list string) :=
  match stdin with
  | [] => None
  | line :: rest => Some (line, rest)
  end.

(** [for x in l: body] for a body that reads from the console. *)
Fixpoint for_each_input {A S : Type} (l : list A) (body : A -> S -> option S)
    (s : S) : option S :=
  match l with
  | [] => Some s
  | x :: l' => s' ← body x s; for_each_input l' body s'
  end.

(** ** Collecting the tokens *)

(** The keys of the dictionary [categories], in the order of insertion. *)
Definition CATEGORIES : list string :=
  [ "Names";
    "Nicknames / Usernames";
    "Company / Organization";
    "Location / City / Country";
    "Years / DOB";
    "Special Dates (anniversaries, etc.)";
    "Phone Numbers";
    "Pet Names / Hobbies / Interests";
    "Custom Words (miscellaneous)" ].

Record collect_state : Type := CollectState {
  categories : gmap string (list string);
  all_words : list string;
  stdin_left : list string;
}.

(** The body of [for category in categories]. *)
Definition collect_category (category : string) (st : collect_state)
  : option collect_state :=
  '(line, rest) ← input (stdin_left st);
  let values := py_strip line in
  match values with
  | EmptyString => Some (CollectState (categories st) (all_words st) rest)
  | _ =>
      let words := py_split values in
      Some (CollectState (<[category := words]> (categories st))
              (all_words st ++ words)%list rest)
  end.

(** [collect_info()]: the pair that it returns and the input left. *)
Definition collect_info (stdin : list string)
  : option (list string * list string * list string) :=
  let initial : gmap string (list string) :=
    list_to_map ((fun category => (category, [])) <$> CATEGORIES) in
  st ← for_each_input CATEGORIES collect_category
         (CollectState initial [] stdin);
  Some (all_words st, default [] (categories st !! "Years / DOB"),
        stdin_left st).

(** ** Saving the word list *)

Definition newline : string := String "010"%char EmptyString.

(** The files, by name.  [open(filename, 'w')] creates or truncates the
    file of that name, and a written line ends in one newline character. *)
Record saved_file : Type := SavedFile {
  filename : string;
  file_size : nat;
  files_after : gmap string string;
  stdin_after : list string;
}.

(** [save_wordlist(wordlist)]: the name asked on the console, the lines
    written one after the other, and the size that is displayed (the
    characters are ASCII: one byte each). *)
Definition save_wordlist (wordlist : list string) (stdin : list string)
    (files : gmap string string) : option saved_file :=
  '(line, rest) ← input stdin;
  let filename := py_strip line in
  let filename :=
    match filename with EmptyString => "wordlist.txt" | _ => filename end in
  let written :=
    foldl (fun f word => f ++ (word ++ newline)) EmptyString wordlist in
  let files := <[filename := written]> files in
  Some (SavedFile filename (String.length written) files rest).

(** ** The program *)

Inductive outcome (A : Type) : Type :=
  | Returned (a : A)
  | EOFError
  | Blocked.
Global Arguments Returned {A} a.
Global Arguments EOFError {A}.
Global Arguments Blocked {A}.

Record main_result : Type := MainResult {
  total_combos : nat;
  report : run_report;
  saved : saved_file;
}.

(** [main()]: the tokens are collected, the number of combinations is
    displayed, the word list is generated (by the units run in the order of
    [schedule]) and saved. *)
Definition main (stdin : list string) (files : gmap string string)
    (schedule : list nat) : outcome main_result :=
  match collect_info stdin with
  | None => EOFError
  | Some (words, years, stdin) =>
      let total_combos :=
        sum_list (r ← range 1 (min 6 (length words + 1));
                  _ ← combinations words r; [1]) in
      match generate_wordlist (PStr <$> words) (PStr <$> years) schedule with
      | None => Blocked
      | Some report =>
          match save_wordlist (wordlist report) stdin files with
          | None => EOFError
          | Some saved => Returned (MainResult total_combos report saved)
          end
      end
  end.

(** ** Reference notions used to state the properties *)

(** The substitution candidates of a (lowercased) character: its list in
    the table, or the character alone. *)
Definition candidates (c : ascii) : list ascii :=
  default [c] (LEET_DICT !! c).

(** The product, over the characters of [s], of their numbers of
    candidates. *)
Fixpoint candidate_product (s : string) : nat :=
  match s with
  | EmptyString => 1
  | String c rest => length (candidates c) * candidate_product rest
  end.

(** [w] is [word] with one of the years appended or prepended. *)
Definition year_affixed (word : string) (years : list string) (w : string) : Prop :=
  exists year, year ∈ years /\ (w = word ++ year \/ w = year ++ word).

(** The result set that section 4.2 of the specification describes for a
    combination of string tokens and a list of string years. *)
Definition mutation_spec (combo years : list string) (w : string) : Prop :=
  let base_word := String.concat "" combo in
  let leet_variants :=
    if (String.length base_word <=? 12)%nat then leetspeak_variations base_word
    else [base_word] in
  (exists variant, variant ∈ leet_variants /\
     (w = variant \/ year_affixed variant years w))
  \/ (exists symbol, symbol ∈ JOIN_SYMBOLS /\
       (w = String.concat symbol combo
        \/ year_affixed (String.concat symbol combo) years w)).

(** The two words that one year adds to [word]. *)
Definition year_pair (word : string) (year : pyval) : gset string :=
  match year with
  | PStr y => {[ y ++ word; word ++ y ]}
  | _ => ∅
  end.

(** What one iteration of the loop over [leet_variants] adds. *)
Definition variant_words (combo years : list string) (variant : string)
  : gset string :=
  ({[ variant ]} ∪ ⋃ (year_pair variant <$> (PStr <$> years)))
  ∪ ⋃ ((fun symbol =>
          {[ String.concat symbol combo ]}
          ∪ ⋃ (year_pair (String.concat symbol combo) <$> (PStr <$> years)))
       <$> JOIN_SYMBOLS).

(** A lowercase token without letters of the leet table: [lower] and the
    table leave each of its characters alone. *)
Fixpoint is_plain (t : string) : bool :=
  match t with
  | EmptyString => true
  | String c rest =>
      bool_decide (lower c = c) && bool_decide (LEET_DICT !! c = None)
      && is_plain rest
  end.

(** The tokens written one after the other. *)
Definition concatenation (combo : list string) : string :=
  foldr String.append "" combo.

(** The binomial coefficient C(n, k), by Pascal's rule. *)
Fixpoint binom (n k : nat) : nat :=
  match k, n with
  | 0, _ => 1
  | S _, 0 => 0
  | S k', S n' => binom n' k' + binom n' k
  end.

(** The sum of C(n, r) for r from 1 to [rmax]. *)
Definition binom_sum (n rmax : nat) : nat :=
  sum_list (binom n <$> seq 1 rmax).

(** [idxs] is a strictly increasing list of positions in [lo, hi). *)
Fixpoint positions_from (lo hi : nat) (idxs : list nat) : Prop :=
  match idxs with
  | [] => True
  | i :: rest => (lo <= i < hi)%nat /\ positions_from (S i) hi rest
  end.

(** The elements of [l] at the positions [idxs], in that order. *)
Definition select {A : Type} (l : list A) (idxs : list nat) : list A :=
  omap (fun i => l !! i) idxs.

(** The result sets of the units that return, and the units that raise
    with their errors, both in the order of submission. *)
Definition unit_result (years combo : list pyval) : option (gset string) :=
  match process_combo combo years with
  | Ok result => Some result
  | Raise _ => None
  end.

Definition unit_failure (years combo : list pyval)
  : option (list pyval * py_error) :=
  match process_combo combo years with
  | Ok _ => None
  | Raise e => Some (combo, e)
  end.

Definition successful_results (combos : list (list pyval)) (years : list pyval)
  : list (gset string) :=
  omap (unit_result years) combos.

Definition reported_failures (combos : list (list pyval)) (years : list pyval)
  : list (list pyval * py_error) :=
  omap (unit_failure years) combos.

Definition is_str (v : pyval) : bool :=
  match v with PStr _ => true | _ => false end.

Definition six_tokens : list string := ["a"; "b"; "c"; "d"; "e"; "f"].

(** [w] is obtained from [word] by replacing each character by one of the
    candidates of its lowercase form. *)
Fixpoint is_variant (word w : string) : Prop :=
  match word, w with
  | EmptyString, EmptyString => True
  | String c rest, String c' rest' =>
      c' ∈ candidates (lower c) /\ is_variant rest rest'
  | _, _ => False
  end.

(** No character of [s] is whitespace. *)
Fixpoint space_free (s : string) : bool :=
  match s with
  | EmptyString => true
  | String c rest => negb (py_isspace c) && space_free rest
  end.

(** A word as the console gives them: not empty and without whitespace. *)
Definition is_token (s : string) : Prop :=
  s <> "" /\ space_free s = true.




(** What the answer [ka.2] to the prompt of the category [ka.1] does to
    the dictionary. *)
Definition record_answer (dict : gmap string (list string))
    (ka : string * string) : gmap string (list string) :=
  match py_strip ka.2 with
  | EmptyString => dict
  | _ => <[ka.1 := py_split (py_strip ka.2)]> dict
  end.


(** * Properties *)

(** ** The embedding on the examples of the specification *)

Example expand_a : leetspeak_variations "a" = ["a"; "@"; "4"].
Proof. reflexivity. Qed.

Example expand_xq : leetspeak_variations "xq" = ["xq"].
Proof. reflexivity. Qed.

Example expand_mixed_case : leetspeak_variations "Ab" = ["ab"; "a8"; "@b"; "@8"; "4b"; "48"].
Proof. reflexivity. Qed.

Example combos_al_99 : all_combos ["al"; "99"] = [["al"]; ["99"]; ["al"; "99"]].
Proof. reflexivity. Qed.

Example mutate_bob :
  process_combo [PStr "bob"] []
  = Ok (list_to_set ["bob"; "bo8"; "b0b"; "b08"; "8ob"; "8o8"; "80b"; "808"]).
Proof. vm_compute. reflexivity. Qed.

Example mutate_long_word :
  process_combo [PStr "Administrator"] [PStr "99"]
  = Ok (list_to_set ["Administrator"; "Administrator99"; "99Administrator"]).
Proof. vm_compute. reflexivity. Qed.

Example mutate_null_token :
  process_combo [PStr "al"; PNone] [PStr "2020"] = Raise (JoinTypeError 1 PNone).
Proof. reflexivity. Qed.

Example mutate_int_year :
  process_combo [PStr "al"] [PStr "2020"; PInt 3] = Raise (ConcatTypeError (PInt 3)).
Proof. vm_compute. reflexivity. Qed.

(** ** The leet expander *)

Section leet.

Lemma LEET_DICT_entries :
  Forall (fun e : ascii * list ascii =>
            NoDup e.2 /\ e.2 <> [] /\ e.1 ∈ e.2 /\ lower e.1 = e.1)
         LEET_ENTRIES.
Proof.
  apply (bool_decide_unpack _). vm_compute. exact I.
Qed.

Lemma LEET_DICT_lookup c subs :
  LEET_DICT !! c = Some subs -> NoDup subs /\ subs <> [] /\ c ∈ subs.
Proof.
  intros Hin%elem_of_list_to_map_2.
  pose proof LEET_DICT_entries as Hall.
  rewrite Forall_forall in Hall.
  destruct (Hall _ Hin) as (? & ? & ? & _). done.
Qed.

Lemma length_pairing {A B C : Type} (g : A -> B -> C) (l : list A) (k : list B) :
  length (x ← l; y ← k; [g x y]) = length l * length k.
Proof.
  induction l as [|x l IH]; csimpl; [done|].
  rewrite length_app, IH. f_equal.
  clear IH. induction k as [|y k IH]; csimpl; [done|]. by rewrite IH.
Qed.

Lemma elem_of_pairing {A B C : Type} (g : A -> B -> C) (l : list A) (k : list B) z :
  z ∈ (x ← l; y ← k; [g x y]) <-> exists x y, x ∈ l /\ y ∈ k /\ z = g x y.
Proof.
  rewrite list_elem_of_bind. split.
  - intros (x & (y & ->%list_elem_of_singleton & ?)%list_elem_of_bind & ?). eauto.
  - intros (x & y & ? & ? & ->). exists x. split; [|done].
    apply list_elem_of_bind. exists y. by rewrite list_elem_of_singleton.
Qed.


Lemma leetspeak_variations_length word :
  length (leetspeak_variations word) = candidate_product (lower_string word).
Proof.
  induction word as [|c rest IH]; [done|].
  cbn [leetspeak_variations lower_string candidate_product].
  unfold candidates. destruct (LEET_DICT !! lower c) as [subs|]; cbn [default].
  - by rewrite length_pairing, IH.
  - rewrite length_fmap, IH. cbn. lia.
Qed.


Lemma candidate_product_pos s : 0 < candidate_product s.
Proof.
  induction s as [|c rest IH]; cbn [candidate_product]; [lia|].
  unfold candidates. destruct (LEET_DICT !! c) as [subs|] eqn:El; cbn.
  - apply LEET_DICT_lookup in El as (_ & Hne & _).
    destruct subs; [done|]. cbn. lia.
  - lia.
Qed.

Lemma leetspeak_variations_nonempty word : leetspeak_variations word <> [].
Proof.
  intros E. apply (f_equal length) in E.
  rewrite leetspeak_variations_length in E.
  pose proof (candidate_product_pos (lower_string word)). cbn in E. lia.
Qed.


End leet.

(** ** The mutation engine *)

Section mutation.

Implicit Types (combo years : list string) (w word : string).
Implicit Types (mangled : gset string).

Lemma bind_Ok {A B : Type} (a : A) (f : A -> result B) : Ok a ≫= f = f a.
Proof. done. Qed.

Lemma for_each_union {A : Type} (l : list A)
    (body : A -> gset string -> result (gset string))
    (g : A -> gset string) mangled :
  (forall x s, x ∈ l -> body x s = Ok (s ∪ g x)) ->
  for_each l body mangled = Ok (mangled ∪ ⋃ (g <$> l)).
Proof.
  revert mangled. induction l as [|x l IH]; intros mangled Hbody; cbn.
  - f_equal. set_solver.
  - rewrite Hbody by left. cbn. rewrite IH.
    + f_equal. set_solver.
    + intros. apply Hbody. by right.
Qed.

Lemma join_items_strings index combo :
  join_items index (PStr <$> combo) = Ok combo.
Proof.
  revert index. induction combo as [|t combo IH]; intros index; [done|].
  cbn. by rewrite IH.
Qed.

Lemma py_join_strings sep combo :
  py_join sep (PStr <$> combo) = Ok (String.concat sep combo).
Proof. unfold py_join. by rewrite join_items_strings. Qed.

Lemma add_year_affixes_strings word years mangled :
  add_year_affixes word (PStr <$> years) mangled
  = Ok (mangled ∪ ⋃ (year_pair word <$> (PStr <$> years))).
Proof.
  apply for_each_union.
  intros year s (y & -> & _)%list_elem_of_fmap. cbn. f_equal. set_solver.
Qed.

Lemma elem_of_year_pairs word years w :
  w ∈ ⋃ (year_pair word <$> (PStr <$> years)) <-> year_affixed word years w.
Proof.
  rewrite elem_of_union_list. unfold year_affixed. split.
  - intros (X & (v & -> & (y & -> & Hy)%list_elem_of_fmap)%list_elem_of_fmap & Hw).
    exists y. cbn in Hw. set_solver.
  - intros (y & Hy & Hw). exists (year_pair word (PStr y)). split.
    + apply list_elem_of_fmap. exists (PStr y). split; [done|].
      by apply list_elem_of_fmap_2.
    + cbn. set_solver.
Qed.

Lemma process_combo_strings combo years :
  process_combo (PStr <$> combo) (PStr <$> years)
  = Ok (⋃ (variant_words combo years
            <$> leet_variants_of (String.concat "" combo))).
Proof.
  unfold process_combo. rewrite py_join_strings, bind_Ok. cbn zeta.
  rewrite (for_each_union _ _ (variant_words combo years)).
  { f_equal. apply (left_id_L ∅ (∪)). }
  intros variant s _. rewrite add_year_affixes_strings, bind_Ok.
  rewrite (for_each_union _ _ (fun symbol =>
    {[ String.concat symbol combo ]}
    ∪ ⋃ (year_pair (String.concat symbol combo) <$> (PStr <$> years)))).
  - f_equal. unfold variant_words. set_solver.
  - intros symbol s' _.
    rewrite py_join_strings, bind_Ok, add_year_affixes_strings. f_equal. set_solver.
Qed.

Lemma leet_variants_of_nonempty word : leet_variants_of word <> [].
Proof.
  unfold leet_variants_of. case_match; [done|].
  apply leetspeak_variations_nonempty.
Qed.

Lemma elem_of_variant_words combo years variant w :
  w ∈ variant_words combo years variant <->
  (w = variant \/ year_affixed variant years w)
  \/ (exists symbol, symbol ∈ JOIN_SYMBOLS /\
       (w = String.concat symbol combo
        \/ year_affixed (String.concat symbol combo) years w)).
Proof.
  unfold variant_words.
  rewrite !elem_of_union, elem_of_singleton, elem_of_year_pairs.
  apply or_iff_compat_l.
  rewrite elem_of_union_list. split.
  - intros (X & (symbol & -> & Hs)%list_elem_of_fmap & Hw).
    exists symbol. split; [done|].
    by rewrite elem_of_union, elem_of_singleton, elem_of_year_pairs in Hw.
  - intros (symbol & Hs & Hw). eexists. split.
    + apply list_elem_of_fmap. by exists symbol.
    + cbn beta. by rewrite elem_of_union, elem_of_singleton, elem_of_year_pairs.
Qed.

Lemma leet_variants_of_spec word :
  leet_variants_of word
  = if (String.length word <=? 12)%nat then leetspeak_variations word
    else [word].
Proof.
  unfold leet_variants_of.
  destruct (Nat.ltb_spec 12 (String.length word)),
           (Nat.leb_spec (String.length word) 12); done || lia.
Qed.

Lemma elem_of_process_combo_strings combo years w :
  w ∈ ⋃ (variant_words combo years
          <$> leet_variants_of (String.concat "" combo))
  <-> mutation_spec combo years w.
Proof.
  unfold mutation_spec. cbn zeta.
  rewrite <- leet_variants_of_spec.
  rewrite elem_of_union_list. split.
  - intros (X & (variant & -> & Hv)%list_elem_of_fmap & Hw).
    apply elem_of_variant_words in Hw as [Hw|Hw]; [left|right]; eauto.
  - pose proof (leet_variants_of_nonempty (String.concat "" combo)) as Hne.
    intros [(variant & Hv & Hw)|Hw].
    + exists (variant_words combo years variant). split.
      * by apply list_elem_of_fmap_2.
      * apply elem_of_variant_words. by left.
    + destruct (leet_variants_of (String.concat "" combo))
        as [|variant rest] eqn:E; [done|].
      exists (variant_words combo years variant). split.
      * apply list_elem_of_fmap_2. left.
      * apply elem_of_variant_words. by right.
Qed.

(** C3: on a combination of string tokens and a list of string years,
    [process_combo] returns exactly the set that the algorithm of the
    specification describes: every leet variant of the base word (the
    base word alone beyond 12 characters), every symbol-joined form, and
    each of those with each year appended and prepended. *)
Theorem process_combo_is_mutation_spec (combo years : list string) :
  exists result : gset string,
    process_combo (PStr <$> combo) (PStr <$> years) = Ok result
    /\ forall w, w ∈ result <-> mutation_spec combo years w.
Proof.
  eexists. split; [apply process_combo_strings|].
  intros w. apply elem_of_process_combo_strings.
Qed.

(** *** Combinations of one token *)

Lemma leetspeak_variations_plain t :
  is_plain t = true -> leetspeak_variations t = [t].
Proof.
  induction t as [|c rest IH]; [done|].
  cbn [is_plain leetspeak_variations].
  rewrite !andb_true_iff, !bool_decide_eq_true.
  intros [[-> ->] Hrest]. by rewrite IH.
Qed.

Lemma leet_variants_of_plain t :
  is_plain t = true -> leet_variants_of t = [t].
Proof.
  intros Ht. unfold leet_variants_of. case_match; [done|].
  by apply leetspeak_variations_plain.
Qed.

Lemma JOIN_SYMBOLS_empty_symbol : "" ∈ JOIN_SYMBOLS.
Proof. left. Qed.

Lemma mutation_spec_single t years w :
  mutation_spec [t] years w <->
  (exists variant, variant ∈ leet_variants_of t /\
     (w = variant \/ year_affixed variant years w))
  \/ (w = t \/ year_affixed t years w).
Proof.
  unfold mutation_spec. cbn [String.concat]. cbn zeta.
  rewrite <- leet_variants_of_spec.
  apply or_iff_compat_l. split.
  - by intros (_ & _ & Hw).
  - intros Hw. exists "". split; [apply JOIN_SYMBOLS_empty_symbol|done].
Qed.

(** C8: for a combination of one token every symbol-joined form is the
    base word, so that the result does not depend on the join symbols: it
    is the set of the leet variants and of the token, each with every
    year appended and prepended; for a lowercase token without letters
    of the leet table and no years it is the singleton of the token. *)
Theorem process_combo_single_token (t : string) :
  (forall symbol, py_join symbol [PStr t] = py_join "" [PStr t])
  /\ py_join "" [PStr t] = Ok t
  /\ (forall years, exists result : gset string,
        process_combo [PStr t] (PStr <$> years) = Ok result
        /\ forall w, w ∈ result <->
             (exists variant, variant ∈ leet_variants_of t /\
                (w = variant \/ year_affixed variant years w))
             \/ (w = t \/ year_affixed t years w))
  /\ (is_plain t = true -> process_combo [PStr t] [] = Ok {[ t ]}).
Proof.
  split_and!; [done..| |].
  - intros years. eexists. split; [apply (process_combo_strings [t])|].
    intros w. rewrite elem_of_process_combo_strings.
    apply mutation_spec_single.
  - intros Ht. change (process_combo (PStr <$> [t]) (PStr <$> []) = Ok {[ t ]}).
    rewrite process_combo_strings. f_equal.
    apply set_eq. intros w.
    rewrite elem_of_process_combo_strings, mutation_spec_single.
    cbn [String.concat]. rewrite (leet_variants_of_plain _ Ht).
    unfold year_affixed. set_solver.
Qed.

Lemma process_combo_single_token_witness :
  is_plain "xq" = true /\ process_combo [PStr "xq"] [] = Ok {[ "xq" ]}.
Proof.
  split; [reflexivity|].
  apply (process_combo_single_token "xq"). reflexivity.
Defined.

(** *** The plain concatenation *)

Lemma concat_empty_separator combo :
  String.concat "" combo = concatenation combo.
Proof.
  induction combo as [|t combo IH]; [done|].
  cbn [concatenation foldr]. fold (concatenation combo). rewrite <- IH.
  destruct combo; [|done]. cbn [String.concat].
  clear IH. induction t as [|a t IHt]; [done|].
  change (String a t = String a (t ++ "")). by rewrite <- IHt.
Qed.

(** C9: on string tokens and string years the result of [process_combo]
    contains the concatenation of the tokens as they are (no character
    is lowercased), whatever the length of the base word. *)
Theorem process_combo_contains_concatenation (combo years : list string) :
  exists result : gset string,
    process_combo (PStr <$> combo) (PStr <$> years) = Ok result
    /\ concatenation combo ∈ result.
Proof.
  eexists. split; [apply process_combo_strings|].
  apply elem_of_process_combo_strings. right.
  exists "". split; [apply JOIN_SYMBOLS_empty_symbol|].
  left. symmetry. apply concat_empty_separator.
Qed.

End mutation.

(** ** The combination enumerator *)

Section enumerator.

Context {A : Type}.
Implicit Types (l tokens : list A) (c : list A) (r : nat).

Lemma binom_lt n k : n < k -> binom n k = 0.
Proof.
  revert k. induction n as [|n IH]; intros [|k] Hlt; cbn; try lia.
  rewrite !IH; lia.
Qed.

(** [binom] is the binomial coefficient: C(n, k) k! (n - k)! = n!. *)
Lemma binom_fact n k :
  k <= n -> binom n k * fact k * fact (n - k) = fact n.
Proof.
  revert k. induction n as [|n IH]; intros [|k] Hle; cbn [binom]; try lia.
  - cbn. lia.
  - rewrite Nat.sub_0_r. change (fact 0) with 1. lia.
  - destruct (decide (k = n)) as [->|Hne].
    + rewrite (binom_lt n (S n)) by lia.
      specialize (IH n ltac:(lia)). rewrite Nat.sub_diag in *.
      cbn [fact] in *. nia.
    + pose proof (IH k ltac:(lia)) as IH1.
      pose proof (IH (S k) ltac:(lia)) as IH2.
      replace (S n - S k) with (n - k) by lia.
      replace (n - k) with (S (n - S k)) in * by lia.
      cbn [fact] in *. nia.
Qed.

Lemma combinations_length l r :
  length (combinations l r) = binom (length l) r.
Proof.
  revert r. induction l as [|x l IH]; intros [|r]; cbn; try done.
  by rewrite length_app, length_fmap, !IH.
Qed.

Lemma combinations_elem_length l r c :
  c ∈ combinations l r -> length c = r.
Proof.
  revert r c. induction l as [|x l IH]; intros [|r] c; cbn.
  - by intros ->%list_elem_of_singleton.
  - by intros ?%elem_of_nil.
  - by intros ->%list_elem_of_singleton.
  - rewrite elem_of_app, list_elem_of_fmap.
    intros [(c' & -> & Hc')|Hc]; cbn; [f_equal|]; eauto.
Qed.

Lemma combinations_elem_subseteq l r c :
  c ∈ combinations l r -> c ⊆ l.
Proof.
  revert r c. induction l as [|x l IH]; intros [|r] c; cbn.
  - by intros ->%list_elem_of_singleton.
  - by intros ?%elem_of_nil.
  - intros ->%list_elem_of_singleton. apply list_subseteq_nil.
  - rewrite elem_of_app, list_elem_of_fmap.
    intros [(c' & -> & Hc')|Hc].
    + apply IH in Hc'. set_solver.
    + apply IH in Hc. set_solver.
Qed.

Lemma combinations_NoDup l r : NoDup l -> NoDup (combinations l r).
Proof.
  revert r. induction l as [|x l IH]; intros [|r] Hl; cbn;
    try apply NoDup_singleton; try apply NoDup_nil_2.
  apply NoDup_cons in Hl as [Hx Hl].
  apply NoDup_app. split_and!.
  - apply NoDup_fmap_2; [|by apply IH]. by intros ?? [= ->].
  - intros c (c' & -> & _)%list_elem_of_fmap Hc%combinations_elem_subseteq.
    apply Hx, Hc. left.
  - by apply IH.
Qed.

Lemma length_list_bind {B C : Type} (f : B -> list C) (k : list B) :
  length (k ≫= f) = sum_list ((fun x => length (f x)) <$> k).
Proof.
  induction k as [|x k IH]; csimpl; [done|]. by rewrite length_app, IH.
Qed.

(** The sizes that the enumerator runs through: [range(1, min(6, N + 1))]
    is 1, ..., min(5, N). *)
Lemma sizes_range n : range 1 (min 6 (n + 1)) = seq 1 (min 5 n).
Proof. unfold range. f_equal. lia. Qed.

Lemma all_combos_length l :
  length (all_combos l) = binom_sum (length l) (min 5 (length l)).
Proof.
  unfold all_combos, binom_sum. rewrite length_list_bind, sizes_range.
  f_equal. apply list_fmap_ext. intros _ r _. apply combinations_length.
Qed.

Lemma all_combos_NoDup l : NoDup l -> NoDup (all_combos l).
Proof.
  intros Hl. unfold all_combos. apply NoDup_bind.
  - intros r1 r2 c _ _ H1%combinations_elem_length H2%combinations_elem_length.
    congruence.
  - intros r _. by apply combinations_NoDup.
  - apply NoDup_seq.
Qed.

Lemma select_cons_here (pre l : list A) x idxs :
  select (pre ++ x :: l) (length pre :: idxs)
  = x :: select (pre ++ x :: l) idxs.
Proof.
  unfold select. cbn [omap list_omap].
  by rewrite lookup_app_r, Nat.sub_diag by lia.
Qed.

Lemma combinations_select (pre l : list A) r :
  combinations l r
  = select (pre ++ l) <$> combinations (seq (length pre) (length l)) r.
Proof.
  revert pre r. induction l as [|x l IH]; intros pre [|r]; cbn; try done.
  rewrite fmap_app, <- list_fmap_compose. f_equal.
  - rewrite (IH (pre ++ [x])%list r), <- list_fmap_compose.
    rewrite length_app, Nat.add_1_r, <- (assoc_L (++)). cbn [app].
    apply list_fmap_ext. intros _ idxs _. cbn [compose].
    by rewrite select_cons_here.
  - rewrite (IH (pre ++ [x])%list (S r)).
    by rewrite length_app, Nat.add_1_r, <- (assoc_L (++)).
Qed.

Lemma all_combos_select l :
  all_combos l = select l <$> all_combos (seq 0 (length l)).
Proof.
  unfold all_combos. rewrite length_seq.
  induction (range 1 (min 6 (length l + 1))) as [|r rs IH]; csimpl; [done|].
  rewrite fmap_app, <- IH. f_equal. apply (combinations_select [] l r).
Qed.

End enumerator.

Section positions.

Implicit Types (idxs : list nat).

Lemma positions_from_weaken lo lo' hi idxs :
  lo' <= lo -> positions_from lo hi idxs -> positions_from lo' hi idxs.
Proof. destruct idxs as [|i rest]; cbn; [done|]. intros ? [? ?]. split; [lia|done]. Qed.

Lemma elem_of_combinations_seq lo n r idxs :
  idxs ∈ combinations (seq lo n) r
  <-> length idxs = r /\ positions_from lo (lo + n) idxs.
Proof.
  revert lo r idxs. induction n as [|n IH]; intros lo [|r] idxs; cbn [seq combinations].
  - rewrite list_elem_of_singleton. split; [by intros ->|].
    by intros [->%nil_length_inv _].
  - rewrite elem_of_nil. split; [done|].
    destruct idxs as [|i rest]; cbn; [lia|]. lia.
  - rewrite list_elem_of_singleton. split; [by intros ->|].
    by intros [->%nil_length_inv _].
  - rewrite elem_of_app, list_elem_of_fmap. split.
    + intros [(rest & -> & [Hlen Hpos]%IH)|[Hlen Hpos]%IH].
      * cbn. split; [by f_equal|]. split; [lia|].
        by replace (lo + S n) with (S lo + n) by lia.
      * split; [done|]. apply (positions_from_weaken (S lo)); [lia|].
        by replace (lo + S n) with (S lo + n) by lia.
    + destruct idxs as [|i rest]; cbn; [lia|].
      intros [[= Hlen] [Hi Hpos]].
      replace (lo + S n) with (S lo + n) in * by lia.
      destruct (decide (i = lo)) as [->|Hne].
      * left. exists rest. split; [done|]. by apply IH.
      * right. apply IH. cbn. split; [by f_equal|]. split; [lia|done].
Qed.

Lemma elem_of_all_combos_seq n idxs :
  idxs ∈ all_combos (seq 0 n)
  <-> (positions_from 0 n idxs /\ (1 <= length idxs <= min 5 n)).
Proof.
  unfold all_combos. rewrite length_seq, sizes_range, list_elem_of_bind.
  split.
  - intros (r & [Hlen Hpos]%elem_of_combinations_seq & Hr%elem_of_seq).
    split; [done|lia].
  - intros [Hpos Hlen]. exists (length idxs). split.
    + by apply elem_of_combinations_seq.
    + apply elem_of_seq. lia.
Qed.

End positions.

(** C1 (as amended): the sizes run from 1 to min(5, N).  The combinations
    are the selections of the tokens at the strictly increasing lists of
    1 to min(5, N) positions, each such list of positions taken exactly
    once, and their number is the sum of C(N, r) for r from 1 to
    min(5, N). *)
Theorem all_combos_enumerates_positions {A : Type} (tokens : list A) :
  all_combos tokens = select tokens <$> all_combos (seq 0 (length tokens))
  /\ NoDup (all_combos (seq 0 (length tokens)))
  /\ (forall idxs,
        idxs ∈ all_combos (seq 0 (length tokens))
        <-> (positions_from 0 (length tokens) idxs
             /\ (1 <= length idxs <= min 5 (length tokens))))
  /\ length (all_combos tokens)
     = binom_sum (length tokens) (min 5 (length tokens)).
Proof.
  split_and!.
  - apply all_combos_select.
  - apply all_combos_NoDup, NoDup_seq.
  - apply elem_of_all_combos_seq.
  - apply all_combos_length.
Qed.

(** C1 fails as stated: of six tokens the one subset of size 6 = min(6, 6)
    is not produced, and 62 combinations are, not the sum 63 of C(6, r)
    for r from 1 to 6. *)
Lemma all_combos_six_tokens_stop_at_five :
  six_tokens ∈ combinations six_tokens (min 6 (length six_tokens))
  /\ (six_tokens ∉ all_combos six_tokens)
  /\ length (all_combos six_tokens) = 62
  /\ binom_sum (length six_tokens) (min 6 (length six_tokens)) = 63.
Proof.
  split_and!; [|apply (bool_decide_unpack _); vm_compute; exact I|done..].
  apply (bool_decide_unpack _). vm_compute. exact I.
Qed.

(** ** The coordinator *)

Section coordinator.

Variable years : list pyval.
Implicit Types (combos : list (list pyval)) (combo : list pyval).
Implicit Types (schedule : list nat) (st : pool_state).

(** *** One unit *)

Lemma wrapped_process_outcome combo count :
  (wrapped_process years combo count).1 = process_combo combo years.
Proof. unfold wrapped_process. by destruct (process_combo combo years). Qed.

Lemma wrapped_process_counter combo count :
  (wrapped_process years combo count).2
  = if is_Ok (process_combo combo years) then S count else count.
Proof. unfold wrapped_process. by destruct (process_combo combo years). Qed.

Lemma wrapped_process_counter_results combo count :
  (wrapped_process years combo count).2
  = count + length (successful_results [combo] years).
Proof.
  unfold wrapped_process, successful_results, unit_result. cbn.
  destruct (process_combo combo years); cbn; lia.
Qed.

(** *** The pool *)

Lemma run_unit_processed combos st i :
  processed (run_unit combos years st i)
  = processed st + length (successful_results (select combos [i]) years).
Proof.
  unfold run_unit, select. cbn.
  destruct (combos !! i) as [combo|]; cbn; [|lia].
  pose proof (wrapped_process_counter_results combo (processed st)) as Hc.
  destruct (wrapped_process years combo (processed st)). by cbn in *.
Qed.

Lemma run_unit_futures combos st i j :
  futures (run_unit combos years st i) !! j
  = if decide (i = j)
    then match combos !! i with
         | Some combo => Some (process_combo combo years)
         | None => futures st !! j
         end
    else futures st !! j.
Proof.
  unfold run_unit. destruct (combos !! i) as [combo|] eqn:E.
  - pose proof (wrapped_process_outcome combo (processed st)) as Ho.
    destruct (wrapped_process years combo (processed st)) as [o p].
    cbn in *. subst o. rewrite lookup_insert. by repeat case_decide.
  - by case_decide.
Qed.

Lemma foldl_run_unit_processed combos schedule st :
  processed (foldl (run_unit combos years) st schedule)
  = processed st + length (successful_results (select combos schedule) years).
Proof.
  revert st. induction schedule as [|i schedule IH]; intros st; cbn [foldl].
  - cbn. lia.
  - rewrite IH, run_unit_processed.
    unfold successful_results, select.
    change (i :: schedule) with ([i] ++ schedule)%list.
    rewrite !omap_app, length_app. lia.
Qed.

Lemma foldl_run_unit_not_scheduled combos schedule st j :
  j ∉ schedule ->
  futures (foldl (run_unit combos years) st schedule) !! j = futures st !! j.
Proof.
  revert st. induction schedule as [|i schedule IH]; intros st Hj; [done|].
  apply not_elem_of_cons in Hj as [Hne Hj].
  cbn [foldl]. rewrite IH, run_unit_futures by done.
  by rewrite decide_False.
Qed.

Lemma foldl_run_unit_scheduled combos schedule st j combo :
  j ∈ schedule -> combos !! j = Some combo ->
  futures (foldl (run_unit combos years) st schedule) !! j
  = Some (process_combo combo years).
Proof.
  revert st. induction schedule as [|i schedule IH]; intros st Hj Hc.
  - by apply elem_of_nil in Hj.
  - cbn [foldl]. destruct (decide (j ∈ schedule)) as [Hin|Hnin].
    + by apply IH.
    + apply elem_of_cons in Hj as [->|?]; [|done].
      rewrite foldl_run_unit_not_scheduled, run_unit_futures by done.
      by rewrite decide_True, Hc.
Qed.

Lemma select_seq (pre l : list (list pyval)) :
  select (pre ++ l) (seq (length pre) (length l)) = l.
Proof.
  revert pre. induction l as [|x l IH]; intros pre; [done|].
  cbn [length seq]. unfold select. cbn [omap list_omap].
  rewrite lookup_app_r, Nat.sub_diag by lia. cbn. f_equal.
  specialize (IH (pre ++ [x])%list).
  by rewrite length_app, Nat.add_1_r, <- (assoc_L (++)) in IH.
Qed.

Lemma select_valid_schedule combos schedule :
  valid_schedule (length combos) schedule ->
  select combos schedule ≡ₚ combos.
Proof.
  unfold valid_schedule. intros Hs.
  rewrite <- (select_seq [] combos) at 2. unfold select. by rewrite Hs.
Qed.

Lemma run_pool_processed combos schedule :
  valid_schedule (length combos) schedule ->
  processed (run_pool combos years schedule)
  = length (successful_results combos years).
Proof.
  intros Hs. unfold run_pool. rewrite foldl_run_unit_processed. cbn.
  unfold successful_results. by rewrite (select_valid_schedule _ _ Hs).
Qed.

Lemma run_pool_futures combos schedule i combo :
  valid_schedule (length combos) schedule ->
  combos !! i = Some combo ->
  futures (run_pool combos years schedule) !! i
  = Some (process_combo combo years).
Proof.
  intros Hs Hc. apply foldl_run_unit_scheduled; [|done].
  unfold valid_schedule in Hs. rewrite Hs. apply elem_of_seq.
  apply lookup_lt_Some in Hc. lia.
Qed.

(** *** The loop of the main thread *)

Lemma collect_completed (submitted : list (nat * list pyval))
    (done : gmap nat (result (gset string))) (st : main_state) :
  Forall (fun u => done !! u.1 = Some (process_combo u.2 years)) submitted ->
  collect submitted done st
  = Some (MainState
            (final_words st ∪ ⋃ successful_results (submitted.*2) years)
            (pbar st + length (successful_results (submitted.*2) years))
            (printed st ++ reported_failures (submitted.*2) years)).
Proof.
  intros Hall. revert st.
  induction Hall as [|[i combo] submitted Hi _ IH]; intros st.
  - cbn. destruct st as [fw pb pr]. cbn. f_equal. f_equal.
    + set_solver.
    + lia.
    + by rewrite app_nil_r.
  - cbn [collect]. cbn [fst snd] in Hi. rewrite Hi.
    unfold successful_results, reported_failures in *.
    unfold unit_result, unit_failure in *.
    cbn [fmap list_fmap snd omap list_omap].
    destruct (process_combo combo years) as [result|e].
    + rewrite IH. cbn. f_equal. f_equal; [set_solver|lia].
    + rewrite IH. cbn. f_equal. f_equal. by rewrite <- (assoc_L (++)).
Qed.

Lemma submitted_combos combos : (imap pair combos).*2 = combos.
Proof.
  rewrite fmap_imap. rewrite <- (list_fmap_id combos) at 2.
  rewrite <- imap_const. by apply imap_ext.
Qed.

(** *** The whole run *)

Lemma generate_wordlist_run (words : list pyval) schedule :
  valid_schedule (length (all_combos words)) schedule ->
  generate_wordlist words years schedule
  = Some (RunReport
            (elements (⋃ successful_results (all_combos words) years))
            (length (all_combos words))
            (length (successful_results (all_combos words) years))
            (length (successful_results (all_combos words) years))
            (reported_failures (all_combos words) years)).
Proof.
  intros Hs. unfold generate_wordlist. cbn zeta.
  rewrite collect_completed.
  - rewrite submitted_combos. cbn.
    rewrite run_pool_processed by done.
    by rewrite (left_id_L ∅ (∪)).
  - apply Forall_forall.
    intros [i combo] (j & c & [= -> ->] & Hc)%elem_of_lookup_imap.
    by apply run_pool_futures.
Qed.

Lemma elem_of_successful_results combos w :
  w ∈ ⋃ successful_results combos years
  <-> exists combo result,
        combo ∈ combos /\ process_combo combo years = Ok result /\ w ∈ result.
Proof.
  unfold successful_results. rewrite elem_of_union_list. split.
  - intros (result & (combo & Hc & Hr)%list_elem_of_omap & Hw).
    exists combo, result. split_and!; [done| |done].
    unfold unit_result in Hr.
    by destruct (process_combo combo years); simplify_eq.
  - intros (combo & result & Hc & Hr & Hw). exists result. split; [|done].
    apply list_elem_of_omap. exists combo. split; [done|].
    unfold unit_result. by rewrite Hr.
Qed.

Lemma elem_of_reported_failures combos combo e :
  (combo, e) ∈ reported_failures combos years
  <-> combo ∈ combos /\ process_combo combo years = Raise e.
Proof.
  unfold reported_failures. rewrite list_elem_of_omap. split.
  - intros (c & Hc & Hf). unfold unit_failure in Hf.
    destruct (process_combo c years) eqn:E; simplify_eq. done.
  - intros [Hc Hr]. exists combo. split; [done|].
    unfold unit_failure. by rewrite Hr.
Qed.

Lemma results_and_failures_length combos :
  length (successful_results combos years)
  + length (reported_failures combos years) = length combos.
Proof.
  unfold successful_results, reported_failures.
  induction combos as [|combo combos IH]; [done|].
  cbn [omap list_omap length]. unfold unit_result at 1, unit_failure at 1.
  destruct (process_combo combo years); cbn [length]; lia.
Qed.

Lemma collect_keeps_results (submitted : list (nat * list pyval))
    (done : gmap nat (result (gset string))) (st st' : main_state) :
  collect submitted done st = Some st' ->
  final_words st ⊆ final_words st' /\ printed st `prefix_of` printed st'.
Proof.
  revert st. induction submitted as [|[i combo] submitted IH]; intros st.
  - by intros [= ->].
  - cbn [collect]. destruct (done !! i) as [[result|e]|]; [| |done].
    + intros [Hw Hp]%IH. cbn in *. split; [set_solver|done].
    + intros [Hw Hp]%IH. cbn in *. split; [done|].
      etrans; [|done]. by apply prefix_app_r.
Qed.



Lemma run_pool_no_unit schedule : run_pool [] years schedule = PoolState 0 ∅.
Proof.
  unfold run_pool. induction schedule as [|i schedule IH]; [done|].
  cbn [foldl]. by rewrite <- IH at 2.
Qed.

End coordinator.

(** Reads the fields of an explicit report. *)
Ltac report_fields :=
  cbn [wordlist estimated_total processed_count pbar_count error_log].

(** *** Progress accounting *)

(** C2 (as amended): a unit that returns increments the counter exactly
    once and a unit that raises does not increment it.  When the run
    finishes, the counter and the progress bar equal the number of units
    that returned; with the reported failures they add up to the number of
    combinations submitted, which they reach when no unit raised. *)
Theorem progress_counts_returned_units
    (words years : list pyval) (schedule : list nat) :
  valid_schedule (length (all_combos words)) schedule ->
  (forall combo count,
     (wrapped_process years combo count).2
     = if is_Ok (process_combo combo years) then S count else count)
  /\ exists report,
       generate_wordlist words years schedule = Some report
       /\ estimated_total report = length (all_combos words)
       /\ processed_count report
          = length (successful_results (all_combos words) years)
       /\ pbar_count report = processed_count report
       /\ processed_count report + length (error_log report)
          = estimated_total report
       /\ (error_log report = [] ->
           processed_count report = estimated_total report).
Proof.
  intros Hs. split; [apply wrapped_process_counter|].
  eexists. split; [by apply generate_wordlist_run|].
  report_fields. pose proof (results_and_failures_length years (all_combos words)) as H.
  split_and!; [done..|]. intros E. rewrite E in H. cbn [length] in H. lia.
Qed.

Lemma progress_counts_returned_units_witness :
  valid_schedule 3 [1; 2; 0]
  /\ exists report,
       generate_wordlist [PStr "xq"; PStr "Al"] [PStr "99"] [1; 2; 0]
       = Some report
       /\ processed_count report = 3 /\ estimated_total report = 3.
Proof.
  assert (valid_schedule 3 [1; 2; 0]) as Hs.
  { apply (bool_decide_unpack _). vm_compute. exact I. }
  split; [exact Hs|].
  destruct (progress_counts_returned_units
              [PStr "xq"; PStr "Al"] [PStr "99"] [1; 2; 0] Hs)
    as (_ & report & Hrun & Htotal & Hcount & _).
  exists report. split; [exact Hrun|].
  rewrite Hcount, Htotal. split; vm_compute; reflexivity.
Defined.

(** C2 fails as stated: of the three units of the tokens ["xq", None] two
    raise; the counter and the progress bar finish at 1, not at the total
    of 3. *)
Lemma counter_skips_failed_units :
  valid_schedule 3 [2; 0; 1]
  /\ generate_wordlist [PStr "xq"; PNone] [] [2; 0; 1]
     = Some (RunReport ["xq"] 3 1 1
               [ ([PNone], JoinTypeError 0 PNone);
                 ([PStr "xq"; PNone], JoinTypeError 1 PNone) ])
  /\ 1 <> 3.
Proof.
  split_and!; [|vm_compute; reflexivity|done].
  apply (bool_decide_unpack _). vm_compute. exact I.
Qed.

(** *** Aggregation *)

(** C5: the returned list has no duplicates and holds exactly the words of
    the result sets of the combinations whose unit returned; it is the same
    for every order in which the units complete. *)
Theorem wordlist_is_union_of_unit_results
    (words years : list pyval) (schedule : list nat) :
  valid_schedule (length (all_combos words)) schedule ->
  exists report,
    generate_wordlist words years schedule = Some report
    /\ NoDup (wordlist report)
    /\ (forall w,
          w ∈ wordlist report
          <-> exists combo result,
                combo ∈ all_combos words
                /\ process_combo combo years = Ok result /\ w ∈ result)
    /\ (forall schedule',
          valid_schedule (length (all_combos words)) schedule' ->
          generate_wordlist words years schedule' = Some report).
Proof.
  intros Hs. eexists. split; [by apply generate_wordlist_run|].
  report_fields. split_and!.
  - apply NoDup_elements.
  - intros w. rewrite elem_of_elements. apply elem_of_successful_results.
  - intros schedule' Hs'. by apply generate_wordlist_run.
Qed.

Lemma wordlist_is_union_of_unit_results_witness :
  valid_schedule 3 [1; 0; 2]
  /\ exists report,
       generate_wordlist [PStr "al"; PStr "99"] [PStr "2020"] [1; 0; 2]
       = Some report
       /\ "al_992020" ∈ wordlist report.
Proof.
  assert (valid_schedule 3 [1; 0; 2]) as Hs.
  { apply (bool_decide_unpack _). vm_compute. exact I. }
  split; [exact Hs|].
  destruct (wordlist_is_union_of_unit_results
              [PStr "al"; PStr "99"] [PStr "2020"] [1; 0; 2] Hs)
    as (report & Hrun & _ & Hwords & _).
  exists report. split; [exact Hrun|].
  apply Hwords. exists [PStr "al"; PStr "99"]. eexists. split_and!.
  - apply (bool_decide_unpack _). vm_compute. exact I.
  - apply (process_combo_strings ["al"; "99"] ["2020"]).
  - apply elem_of_process_combo_strings. right. exists "_". split.
    + apply (bool_decide_unpack _). vm_compute. exact I.
    + right. exists "2020". split; [left|by left].
Defined.

(** *** Failure isolation *)

(** C6: when the unit of a combination raises, the run still completes;
    the combination and its error are among the reported failures (which
    are exactly the failing units); the loop of the main thread never
    removes a collected word or a reported line; and the returned list
    holds exactly the words of the units that returned. *)
Theorem failing_unit_is_reported_and_isolated
    (words years : list pyval) (schedule : list nat)
    (combo : list pyval) (e : py_error) :
  valid_schedule (length (all_combos words)) schedule ->
  combo ∈ all_combos words ->
  process_combo combo years = Raise e ->
  exists report,
    generate_wordlist words years schedule = Some report
    /\ (combo, e) ∈ error_log report
    /\ error_log report = reported_failures (all_combos words) years
    /\ (forall submitted done st st',
          collect submitted done st = Some st' ->
          final_words st ⊆ final_words st'
          /\ printed st `prefix_of` printed st')
    /\ (forall w,
          w ∈ wordlist report
          <-> exists combo' result,
                combo' ∈ all_combos words
                /\ process_combo combo' years = Ok result /\ w ∈ result).
Proof.
  intros Hs Hc He. eexists. split; [by apply generate_wordlist_run|].
  report_fields. split_and!.
  - by apply elem_of_reported_failures.
  - done.
  - apply collect_keeps_results.
  - intros w. rewrite elem_of_elements. apply elem_of_successful_results.
Qed.

Lemma failing_unit_is_reported_and_isolated_witness :
  valid_schedule 3 [2; 1; 0]
  /\ exists report,
       generate_wordlist [PStr "xq"; PInt 7] [] [2; 1; 0] = Some report
       /\ ([PStr "xq"; PInt 7], JoinTypeError 1 (PInt 7)) ∈ error_log report.
Proof.
  assert (valid_schedule 3 [2; 1; 0]) as Hs.
  { apply (bool_decide_unpack _). vm_compute. exact I. }
  split; [exact Hs|].
  destruct (failing_unit_is_reported_and_isolated
              [PStr "xq"; PInt 7] [] [2; 1; 0]
              [PStr "xq"; PInt 7] (JoinTypeError 1 (PInt 7)) Hs)
    as (report & Hrun & Hlog & _).
  - apply (bool_decide_unpack _). vm_compute. exact I.
  - vm_compute. reflexivity.
  - exists report. split; [exact Hrun|exact Hlog].
Defined.

(** *** Malformed input *)




(** *** No tokens *)

(** C10: without tokens there is no combination, and the run returns the
    empty list (whatever the years and the schedule). *)
Theorem generate_wordlist_no_tokens (years : list pyval) (schedule : list nat) :
  all_combos (@nil pyval) = []
  /\ generate_wordlist [] years schedule = Some (RunReport [] 0 0 0 []).
Proof.
  split; [done|]. unfold generate_wordlist.
  change (all_combos []) with (@nil (list pyval)). cbn zeta.
  rewrite run_pool_no_unit. cbn. by rewrite elements_empty.
Qed.

(** * Further properties of the code *)

(** ** Strings *)

Section strings.

Implicit Types (s t u : string).

Lemma append_empty_r s : s ++ "" = s.
Proof.
  induction s as [|c s IH]; [done|].
  change (String c (s ++ "") = String c s). by rewrite IH.
Qed.

Lemma append_cons c s t : String c s ++ t = String c (s ++ t).
Proof. done. Qed.

Lemma append_assoc s t u : (s ++ t) ++ u = s ++ (t ++ u).
Proof.
  induction s as [|c s IH]; [done|]. rewrite !append_cons. by rewrite IH.
Qed.


Lemma append_eq_empty s t : s ++ t = "" -> s = "" /\ t = "".
Proof. destruct s; [done|]. by rewrite append_cons. Qed.

Lemma lower_idemp c : lower (lower c) = lower c.
Proof. by destruct c as [[] [] [] [] [] [] [] []]. Qed.

Lemma lower_string_idemp s : lower_string (lower_string s) = lower_string s.
Proof.
  induction s as [|c s IH]; [done|]. cbn. by rewrite lower_idemp, IH.
Qed.

Lemma lower_string_append s t :
  lower_string (s ++ t) = lower_string s ++ lower_string t.
Proof.
  induction s as [|c s IH]; [done|]. rewrite append_cons. cbn [lower_string].
  by rewrite append_cons, IH.
Qed.

Lemma lower_string_length s : String.length (lower_string s) = String.length s.
Proof. induction s as [|c s IH]; [done|]. cbn. by rewrite IH. Qed.

End strings.

(** ** More on the leet expander *)

Section leet_expansion.

Implicit Types (word w : string).



Lemma elem_of_leetspeak_variations word w :
  w ∈ leetspeak_variations word <-> is_variant word w.
Proof.
  revert w. induction word as [|c rest IH]; intros w.
  - cbn. rewrite list_elem_of_singleton. by destruct w.
  - cbn [leetspeak_variations is_variant]. unfold candidates.
    destruct (LEET_DICT !! lower c) as [subs|]; cbn [default].
    + rewrite elem_of_pairing. split.
      * intros (c' & w' & Hc & Hw & ->). split; [done|]. by apply IH.
      * destruct w as [|c' w']; [done|]. intros [Hc Hw].
        exists c', w'. split_and!; [done| |done]. by apply IH.
    + rewrite list_elem_of_fmap. split.
      * intros (w' & -> & Hw). split; [by apply list_elem_of_singleton|].
        by apply IH.
      * destruct w as [|c' w']; [done|].
        intros [->%list_elem_of_singleton Hw]. exists w'. split; [done|].
        by apply IH.
Qed.

Lemma is_variant_length word w :
  is_variant word w -> String.length w = String.length word.
Proof.
  revert w. induction word as [|c rest IH]; intros [|c' w']; cbn; try done.
  intros [_ Hw]. f_equal. by apply IH.
Qed.





Lemma pairing_assoc {A B C : Type} (subs : list A) (vars : list B) (k : list C)
    (f : A -> B -> B) (g : B -> C -> B) :
  (forall a b c, g (f a b) c = f a (g b c)) ->
  (x ← (a ← subs; b ← vars; [f a b]); c ← k; [g x c])
  = (a ← subs; b ← (b ← vars; c ← k; [g b c]); [f a b]).
Proof.
  intros Hfg. induction subs as [|a subs IH]; csimpl; [done|].
  rewrite bind_app, IH. f_equal. clear IH.
  induction vars as [|b vars IH]; csimpl; [done|].
  rewrite bind_app, <- IH. f_equal.
  clear IH. induction k as [|c k IH]; csimpl; [done|].
  by rewrite Hfg, IH.
Qed.

Lemma fmap_pairing {B C : Type} (vars : list B) (k : list C)
    (f : B -> B) (g : B -> C -> B) :
  (forall b c, g (f b) c = f (g b c)) ->
  f <$> (b ← vars; c ← k; [g b c]) = (b ← f <$> vars; c ← k; [g b c]).
Proof.
  intros Hfg. induction vars as [|b vars IH]; csimpl; [done|].
  rewrite fmap_app, IH. f_equal. clear IH.
  induction k as [|c k IH]; csimpl; [done|]. by rewrite Hfg, IH.
Qed.

Lemma bind_unit {B : Type} (k : list B) : (b ← k; [b]) = k.
Proof. induction k as [|b k IH]; csimpl; [done|]. by rewrite IH. Qed.



(** X3: the expansion of a concatenation is the product of the expansions:
    every variant of the first word followed by every variant of the
    second, in that order. *)
Theorem leetspeak_variations_append (word1 word2 : string) :
  leetspeak_variations (word1 ++ word2)
  = (v1 ← leetspeak_variations word1; v2 ← leetspeak_variations word2;
     [v1 ++ v2]).
Proof.
  induction word1 as [|c rest IH].
  - cbn [leetspeak_variations]. rewrite bind_singleton.
    change ("" ++ word2) with word2. symmetry. apply bind_unit.
  - rewrite append_cons. cbn [leetspeak_variations]. rewrite IH.
    destruct (LEET_DICT !! lower c) as [subs|].
    + symmetry. by apply (pairing_assoc subs _ _ String String.append).
    + by apply (fmap_pairing _ _ (String (lower c)) String.append).
Qed.

End leet_expansion.

(** ** More on the combination enumerator *)

Section subsequences.

Context {A : Type}.
Implicit Types (l c : list A) (r : nat).

Lemma elem_of_combinations l r c :
  c ∈ combinations l r <-> c `sublist_of` l /\ length c = r.
Proof.
  revert r c. induction l as [|x l IH]; intros [|r] c; cbn [combinations].
  - rewrite list_elem_of_singleton, sublist_nil_r. split; [by intros ->|tauto].
  - rewrite elem_of_nil, sublist_nil_r. split; [done|]. by intros [-> ?].
  - rewrite list_elem_of_singleton. split.
    + intros ->. split; [apply sublist_nil_l|done].
    + by intros [_ ->%nil_length_inv].
  - rewrite elem_of_app, list_elem_of_fmap, sublist_cons_r. split.
    + intros [(c' & -> & [Hs Hl]%IH)|[Hs Hl]%IH].
      * split; [right; eauto|]. cbn. by f_equal.
      * split; [by left|done].
    + intros [[Hs|(c' & -> & Hs)] Hl].
      * right. by apply IH.
      * left. exists c'. split; [done|]. apply IH. split; [done|].
        cbn in Hl. lia.
Qed.

Lemma elem_of_all_combos l c :
  c ∈ all_combos l
  <-> c `sublist_of` l /\ (1 <= length c <= min 5 (length l)).
Proof.
  unfold all_combos. rewrite sizes_range, list_elem_of_bind. split.
  - intros (r & [Hs Hl]%elem_of_combinations & Hr%elem_of_seq).
    split; [done|lia].
  - intros [Hs Hl]. exists (length c). split.
    + by apply elem_of_combinations.
    + apply elem_of_seq. lia.
Qed.

Lemma singleton_in_all_combos l x : x ∈ l -> [x] ∈ all_combos l.
Proof.
  intros Hx. apply elem_of_all_combos. split.
  - apply list_elem_of_split in Hx as (l1 & l2 & ->).
    apply sublist_inserts_l, sublist_skip, sublist_nil_l.
  - destruct l; [by apply elem_of_nil in Hx|]. cbn. lia.
Qed.

Lemma combinations_fmap {B : Type} (f : A -> B) l r :
  combinations (f <$> l) r = fmap (M:=list) f <$> combinations l r.
Proof.
  revert r. induction l as [|x l IH]; intros [|r]; cbn; try done.
  rewrite fmap_app, !IH, <- !list_fmap_compose. done.
Qed.

Lemma all_combos_fmap {B : Type} (f : A -> B) l :
  all_combos (f <$> l) = fmap (M:=list) f <$> all_combos l.
Proof.
  unfold all_combos. rewrite length_fmap.
  induction (range 1 (min 6 (length l + 1))) as [|r rs IH]; csimpl; [done|].
  by rewrite fmap_app, IH, combinations_fmap.
Qed.

Lemma binom_zero_r n : binom n 0 = 1.
Proof. by destruct n. Qed.

Lemma binom_sum_snoc n m :
  binom_sum n (S m) = binom_sum n m + binom n (S m).
Proof.
  unfold binom_sum. rewrite seq_S, fmap_app, sum_list_with_app. cbn. lia.
Qed.

Lemma binom_sum_zero m : binom_sum 0 m = 0.
Proof.
  induction m as [|m IH]; [done|]. rewrite binom_sum_snoc, IH. done.
Qed.

Lemma binom_sum_pascal n m :
  binom_sum (S n) (S m) = (1 + binom_sum n m) + binom_sum n (S m).
Proof.
  induction m as [|m IH].
  { cbn. rewrite binom_zero_r. lia. }
  rewrite (binom_sum_snoc (S n)), IH, !(binom_sum_snoc n).
  cbn [binom]. lia.
Qed.

(** The sum of C(n, r) for r from 0 to m is at most 2^n, and less for
    m < n. *)
Lemma binom_sum_bound n m :
  1 + binom_sum n m <= 2 ^ n /\ (m < n -> 1 + binom_sum n m < 2 ^ n).
Proof.
  revert m. induction n as [|n IH]; intros m.
  - rewrite binom_sum_zero. cbn. lia.
  - rewrite Nat.pow_succ_r'. destruct m as [|m].
    + pose proof (IH 0) as [H0 _]. cbn [binom_sum seq fmap list_fmap sum_list] in *.
      cbn. lia.
    + rewrite binom_sum_pascal.
      pose proof (IH m) as [H1 H2]. pose proof (IH (S m)) as [H3 _].
      split; [lia|]. intros Hlt. specialize (H2 ltac:(lia)). lia.
Qed.

(** X4: the combinations are the subsequences of the tokens, in the order
    of the tokens, that have from 1 to min(5, N) elements. *)
Theorem all_combos_are_subsequences (tokens c : list A) :
  c ∈ all_combos tokens
  <-> c `sublist_of` tokens /\ (1 <= length c <= min 5 (length tokens)).
Proof. apply elem_of_all_combos. Qed.

(** X5: every non-empty subset of the tokens is enumerated exactly when
    there are at most five tokens: the number of combinations is 2^N - 1
    for N <= 5 and smaller beyond. *)
Theorem all_combos_count_all_subsets (tokens : list A) :
  (length tokens <= 5 <-> length (all_combos tokens) = 2 ^ length tokens - 1)
  /\ length (all_combos tokens) <= 2 ^ length tokens - 1.
Proof.
  rewrite all_combos_length.
  destruct (decide (length tokens <= 5)) as [Hn|Hn].
  - assert (binom_sum (length tokens) (min 5 (length tokens))
            = 2 ^ length tokens - 1) as ->; [|split; [done|lia]].
    destruct (length tokens) as [|[|[|[|[|[|n]]]]]]; try done. lia.
  - pose proof (binom_sum_bound (length tokens) 5) as [_ Hlt].
    replace (min 5 (length tokens)) with 5 by lia. split; lia.
Qed.

End subsequences.

(** ** More on the mutation engine *)

Section mutation_errors.

Implicit Types (combo years : list pyval) (toks ys : list string).
Implicit Types (v : pyval) (word : string).

Lemma for_each_app {A S : Type} (l1 l2 : list A)
    (body : A -> S -> result S) (s : S) :
  for_each (l1 ++ l2) body s = for_each l1 body s ≫= for_each l2 body.
Proof.
  revert s. induction l1 as [|x l1 IH]; intros s; [done|].
  cbn [app for_each]. destruct (body x s) as [s'|e]; [|done]. apply IH.
Qed.

(** A list of values is a list of strings, or strings followed by a first
    value that is not a string. *)
Lemma strings_or_first_non_str (l : list pyval) :
  (exists strs, l = PStr <$> strs)
  \/ (exists strs v rest,
        l = ((PStr <$> strs) ++ v :: rest)%list /\ is_str v = false).
Proof.
  induction l as [|u l [(strs & ->)|(strs & v & rest & -> & Hv)]].
  - left. by exists [].
  - destruct u as [s| |n].
    + left. by exists (s :: strs).
    + right. by exists [], PNone, (PStr <$> strs).
    + right. by exists [], (PInt n), (PStr <$> strs).
  - destruct u as [s| |n].
    + right. by exists (s :: strs), v, rest.
    + right. by exists [], PNone, ((PStr <$> strs) ++ v :: rest)%list.
    + right. by exists [], (PInt n), ((PStr <$> strs) ++ v :: rest)%list.
Qed.

Lemma forallb_is_str_strings (strs : list string) :
  forallb is_str (PStr <$> strs) = true.
Proof. induction strs as [|s strs IH]; [done|]. by cbn. Qed.

Lemma forallb_is_str_non_str (strs : list string) v (rest : list pyval) :
  is_str v = false -> forallb is_str ((PStr <$> strs) ++ v :: rest)%list = false.
Proof.
  intros Hv. induction strs as [|s strs IH]; cbn; [by rewrite Hv|done].
Qed.

Lemma join_items_first_non_str index toks v (rest : list pyval) :
  is_str v = false ->
  join_items index ((PStr <$> toks) ++ v :: rest)%list
  = Raise (JoinTypeError (index + length toks) v).
Proof.
  intros Hv. revert index. induction toks as [|t toks IH]; intros index.
  - cbn. rewrite Nat.add_0_r. by destruct v.
  - cbn. rewrite IH. cbn. do 2 f_equal. lia.
Qed.

Lemma process_combo_first_non_str toks v (rest : list pyval) years :
  is_str v = false ->
  process_combo ((PStr <$> toks) ++ v :: rest)%list years
  = Raise (JoinTypeError (length toks) v).
Proof.
  intros Hv. unfold process_combo, py_join.
  by rewrite (join_items_first_non_str 0) by done.
Qed.

Lemma add_year_affixes_first_non_str word ys v (rest : list pyval)
    (mangled : gset string) :
  is_str v = false ->
  add_year_affixes word ((PStr <$> ys) ++ v :: rest)%list mangled
  = Raise (ConcatTypeError v).
Proof.
  intros Hv. unfold add_year_affixes. rewrite for_each_app.
  fold (add_year_affixes word (PStr <$> ys) mangled).
  rewrite add_year_affixes_strings, bind_Ok. cbn [for_each].
  by destruct v.
Qed.

Lemma process_combo_first_non_str_year toks ys v (rest : list pyval) :
  is_str v = false ->
  process_combo (PStr <$> toks) ((PStr <$> ys) ++ v :: rest)%list
  = Raise (ConcatTypeError v).
Proof.
  intros Hv. unfold process_combo. rewrite py_join_strings, bind_Ok. cbn zeta.
  pose proof (leet_variants_of_nonempty (String.concat "" toks)) as Hne.
  destruct (leet_variants_of (String.concat "" toks)) as [|variant vs]; [done|].
  cbn [for_each]. by rewrite add_year_affixes_first_non_str.
Qed.

(** X6: a token that is not a string makes [process_combo] raise the
    [TypeError] of [str.join], which names the position of the first such
    token and the token, whatever the years. *)
Theorem process_combo_join_error
    (toks : list string) (v : pyval) (rest years : list pyval) :
  is_str v = false ->
  process_combo ((PStr <$> toks) ++ v :: rest)%list years
  = Raise (JoinTypeError (length toks) v).
Proof. apply process_combo_first_non_str. Qed.

Lemma process_combo_join_error_witness :
  process_combo [PStr "al"; PStr "bob"; PInt 7; PNone] [PNone]
  = Raise (JoinTypeError 2 (PInt 7)).
Proof.
  apply (process_combo_join_error ["al"; "bob"] (PInt 7) [PNone] [PNone]).
  reflexivity.
Defined.

(** X7: on string tokens, a year that is not a string makes
    [process_combo] raise the [TypeError] of the concatenation, which names
    the first such year: no word is returned, even for the years before
    it. *)
Theorem process_combo_year_error
    (toks ys : list string) (v : pyval) (rest : list pyval) :
  is_str v = false ->
  process_combo (PStr <$> toks) ((PStr <$> ys) ++ v :: rest)%list
  = Raise (ConcatTypeError v).
Proof. apply process_combo_first_non_str_year. Qed.

Lemma process_combo_year_error_witness :
  process_combo [PStr "al"] [PStr "1999"; PNone; PInt 3]
  = Raise (ConcatTypeError PNone).
Proof.
  apply (process_combo_year_error ["al"] ["1999"] PNone [PInt 3]).
  reflexivity.
Defined.

(** X8: [process_combo] returns exactly when all the tokens and all the
    years are strings. *)
Theorem process_combo_returns_iff_strings (combo years : list pyval) :
  is_Ok (process_combo combo years)
  = forallb is_str combo && forallb is_str years.
Proof.
  destruct (strings_or_first_non_str combo)
    as [(toks & ->)|(toks & v & rest & -> & Hv)].
  - rewrite forallb_is_str_strings.
    destruct (strings_or_first_non_str years)
      as [(ys & ->)|(ys & u & rest & -> & Hu)].
    + by rewrite process_combo_strings, forallb_is_str_strings.
    + by rewrite process_combo_first_non_str_year, forallb_is_str_non_str.
  - by rewrite process_combo_first_non_str, forallb_is_str_non_str.
Qed.

End mutation_errors.

Section mutation_results.

Implicit Types (combo years : list string) (w word : string).

Lemma year_affixed_mono word years years' w :
  years ⊆ years' -> year_affixed word years w -> year_affixed word years' w.
Proof. intros Hsub (year & Hy & Hw). exists year. split; [by apply Hsub|done]. Qed.

Lemma mutation_spec_mono combo years years' w :
  years ⊆ years' -> mutation_spec combo years w -> mutation_spec combo years' w.
Proof.
  intros Hsub. unfold mutation_spec. cbn zeta.
  intros [(variant & Hv & [->|Hw])|(symbol & Hs & [->|Hw])].
  - left. exists variant. eauto.
  - left. exists variant. eauto using year_affixed_mono.
  - right. exists symbol. eauto.
  - right. exists symbol. eauto using year_affixed_mono.
Qed.

(** X9: the result grows with the years and depends on them as a set only:
    more years give more words, and two lists with the same years, in any
    order and with any repetition, give the same result. *)
Theorem process_combo_years_monotone (combo years years' : list string) :
  years ⊆ years' ->
  exists result result' : gset string,
    process_combo (PStr <$> combo) (PStr <$> years) = Ok result
    /\ process_combo (PStr <$> combo) (PStr <$> years') = Ok result'
    /\ result ⊆ result'
    /\ (years' ⊆ years -> result = result').
Proof.
  intros Hsub. eexists _, _. split_and!; [apply process_combo_strings..| |].
  - intros w. rewrite !elem_of_process_combo_strings.
    by apply mutation_spec_mono.
  - intros Hsub'. apply set_eq. intros w.
    rewrite !elem_of_process_combo_strings.
    split; by apply mutation_spec_mono.
Qed.

Lemma process_combo_years_monotone_witness :
  process_combo [PStr "al"] [PStr "99"; PStr "07"; PStr "99"]
  = process_combo [PStr "al"] [PStr "07"; PStr "99"].
Proof.
  destruct (process_combo_years_monotone
              ["al"] ["99"; "07"; "99"] ["07"; "99"])
    as (result & result' & Hr & Hr' & _ & Heq).
  - apply (bool_decide_unpack _). vm_compute. exact I.
  - change (process_combo [PStr "al"] [PStr "99"; PStr "07"; PStr "99"])
      with (process_combo (PStr <$> ["al"]) (PStr <$> ["99"; "07"; "99"])).
    change (process_combo [PStr "al"] [PStr "07"; PStr "99"])
      with (process_combo (PStr <$> ["al"]) (PStr <$> ["07"; "99"])).
    rewrite Hr, Hr'. f_equal. apply Heq.
    apply (bool_decide_unpack _). vm_compute. exact I.
Defined.

(** X10: beyond 12 characters there is no leet variant: the result holds
    the symbol-joined forms, with and without the year affixes, and
    nothing else (so no lowercased form of the base word either). *)
Theorem process_combo_long_base_word (combo years : list string) :
  12 < String.length (concatenation combo) ->
  exists result : gset string,
    process_combo (PStr <$> combo) (PStr <$> years) = Ok result
    /\ forall w,
         w ∈ result
         <-> exists symbol,
               symbol ∈ JOIN_SYMBOLS
               /\ (w = String.concat symbol combo
                   \/ year_affixed (String.concat symbol combo) years w).
Proof.
  intros Hlong. eexists. split; [apply process_combo_strings|].
  intros w. rewrite elem_of_process_combo_strings.
  unfold mutation_spec. cbn zeta. rewrite <- concat_empty_separator in Hlong.
  destruct (Nat.leb_spec (String.length (String.concat "" combo)) 12);
    [lia|].
  split; [|by right].
  intros [(variant & ->%list_elem_of_singleton & Hw)|Hw]; [|done].
  exists "". split; [apply JOIN_SYMBOLS_empty_symbol|done].
Qed.

Lemma process_combo_long_base_word_witness :
  exists result : gset string,
    process_combo [PStr "Administrator"] [] = Ok result
    /\ "Administrator" ∈ result.
Proof.
  destruct (process_combo_long_base_word ["Administrator"] [])
    as (result & Hr & Hw).
  - vm_compute. lia.
  - exists result. split; [exact Hr|]. apply Hw.
    exists "". split; [left|by left].
Defined.

(** *** The size of a result *)

Lemma size_union_le (X Y : gset string) : size (X ∪ Y) <= size X + size Y.
Proof.
  rewrite size_union_alt.
  assert (size (Y ∖ X) <= size Y) by (apply subseteq_size; set_solver). lia.
Qed.

Lemma size_union_list_le {A : Type} (f : A -> gset string) (l : list A) n :
  (forall x, size (f x) <= n) -> size (⋃ (f <$> l)) <= length l * n.
Proof.
  intros Hf. induction l as [|x l IH]; cbn.
  - by rewrite size_empty.
  - etrans; [apply size_union_le|]. specialize (Hf x). lia.
Qed.

Lemma size_year_pairs word years :
  size (⋃ (year_pair word <$> (PStr <$> years))) <= 2 * length years.
Proof.
  rewrite <- list_fmap_compose.
  etrans; [apply (size_union_list_le _ _ 2)|lia].
  intros y. cbn. etrans; [apply size_union_le|]. by rewrite !size_singleton.
Qed.

Lemma size_word_and_affixes word years :
  size ({[ word ]} ∪ ⋃ (year_pair word <$> (PStr <$> years)) : gset string)
  <= 1 + 2 * length years.
Proof.
  etrans; [apply size_union_le|]. rewrite size_singleton.
  pose proof (size_year_pairs word years). lia.
Qed.

Lemma LEET_DICT_short_lists :
  Forall (fun e : ascii * list ascii => length e.2 <= 3) LEET_ENTRIES.
Proof. apply (bool_decide_unpack _). vm_compute. exact I. Qed.

Lemma candidates_length c : length (candidates c) <= 3.
Proof.
  unfold candidates. destruct (LEET_DICT !! c) as [subs|] eqn:E; cbn; [|lia].
  apply elem_of_list_to_map_2 in E.
  pose proof LEET_DICT_short_lists as Hall. rewrite Forall_forall in Hall.
  apply (Hall _ E).
Qed.

Lemma candidate_product_le word :
  candidate_product word <= 3 ^ String.length word.
Proof.
  induction word as [|c rest IH]; [done|].
  cbn [candidate_product String.length]. rewrite Nat.pow_succ_r'.
  pose proof (candidates_length c). by apply Nat.mul_le_mono.
Qed.

Lemma leet_variants_of_length word :
  length (leet_variants_of word) <= 3 ^ 12.
Proof.
  unfold leet_variants_of.
  destruct (Nat.ltb_spec 12 (String.length word)) as [Hlong|Hshort].
  - cbn [length]. apply (Nat.pow_le_mono_r 3 0 12); lia.
  - rewrite leetspeak_variations_length.
    etrans; [apply candidate_product_le|].
    rewrite lower_string_length. apply Nat.pow_le_mono_r; lia.
Qed.

Lemma process_combo_strings_split combo years :
  ⋃ (variant_words combo years <$> leet_variants_of (String.concat "" combo))
  = ⋃ ((fun variant =>
          {[ variant ]} ∪ ⋃ (year_pair variant <$> (PStr <$> years)))
       <$> leet_variants_of (String.concat "" combo))
    ∪ ⋃ ((fun symbol =>
            {[ String.concat symbol combo ]}
            ∪ ⋃ (year_pair (String.concat symbol combo) <$> (PStr <$> years)))
         <$> JOIN_SYMBOLS).
Proof.
  pose proof (leet_variants_of_nonempty (String.concat "" combo)) as Hne.
  induction (leet_variants_of (String.concat "" combo)) as [|v [|v' vs] IH];
    [done| |].
  - cbn. unfold variant_words. set_solver.
  - specialize (IH ltac:(done)).
    rewrite !fmap_cons, !union_list_cons in *. rewrite IH.
    unfold variant_words at 1. set_solver.
Qed.

(** X11: a result holds at most one word, and two more per year, for each
    leet variant and each of the 9 join symbols; with the guard at 12
    characters that makes at most (3^12 + 9) (1 + 2 Y) words for Y years,
    whatever the tokens. *)
Theorem process_combo_result_size (combo years : list string) :
  exists result : gset string,
    process_combo (PStr <$> combo) (PStr <$> years) = Ok result
    /\ size result
       <= (length (leet_variants_of (String.concat "" combo)) + 9)
          * (1 + 2 * length years)
    /\ size result <= (3 ^ 12 + 9) * (1 + 2 * length years).
Proof.
  eexists. split; [apply process_combo_strings|].
  rewrite process_combo_strings_split.
  assert (size
    (⋃ ((fun variant =>
           {[ variant ]} ∪ ⋃ (year_pair variant <$> (PStr <$> years)))
        <$> leet_variants_of (String.concat "" combo))
     ∪ ⋃ ((fun symbol =>
             {[ String.concat symbol combo ]}
             ∪ ⋃ (year_pair (String.concat symbol combo) <$> (PStr <$> years)))
          <$> JOIN_SYMBOLS) : gset string)
    <= (length (leet_variants_of (String.concat "" combo)) + 9) * (1 + 2 * length years)) as Hsize.
  { etrans; [apply size_union_le|].
    rewrite Nat.mul_add_distr_r. apply Nat.add_le_mono.
    - apply size_union_list_le. intros v. apply size_word_and_affixes.
    - apply (size_union_list_le _ JOIN_SYMBOLS).
      intros v. apply size_word_and_affixes. }
  split; [apply Hsize|].
  etrans; [apply Hsize|].
  apply Nat.mul_le_mono_r, Nat.add_le_mono_r, leet_variants_of_length.
Qed.

End mutation_results.

(** ** More on the coordinator *)

Section coordinator_runs.

Implicit Types (words years : list string) (schedule : list nat).

Lemma reported_failures_strings words years :
  reported_failures (all_combos (PStr <$> words)) (PStr <$> years) = [].
Proof.
  rewrite all_combos_fmap. unfold reported_failures.
  induction (all_combos words) as [|combo combos IH]; [done|].
  cbn [fmap list_fmap omap list_omap]. unfold unit_failure at 1.
  by rewrite process_combo_strings.
Qed.

Lemma successful_results_strings words years :
  length (successful_results (all_combos (PStr <$> words)) (PStr <$> years))
  = length (all_combos (PStr <$> words)).
Proof.
  pose proof (results_and_failures_length (PStr <$> years)
                (all_combos (PStr <$> words))) as H.
  rewrite reported_failures_strings in H. cbn [length] in H. lia.
Qed.

Lemma process_combo_raises_non_str_year (combo years' : list pyval) :
  (exists v, v ∈ years' /\ is_str v = false) ->
  exists e, process_combo combo years' = Raise e.
Proof.
  intros (v & Hv & Hstr).
  destruct (strings_or_first_non_str years')
    as [(ys & ->)|(ys & u & rest & -> & Hu)].
  { apply list_elem_of_fmap in Hv as (y & -> & _). done. }
  destruct (strings_or_first_non_str combo)
    as [(toks & ->)|(toks & t & rest' & -> & Ht)].
  - eexists. by apply process_combo_first_non_str_year.
  - eexists. by apply process_combo_first_non_str.
Qed.

Lemma successful_results_non_str_year (combos : list (list pyval))
    (years' : list pyval) :
  (exists v, v ∈ years' /\ is_str v = false) ->
  successful_results combos years' = [].
Proof.
  intros Hv. unfold successful_results.
  induction combos as [|combo combos IH]; [done|].
  cbn [omap list_omap]. unfold unit_result at 1.
  destruct (process_combo_raises_non_str_year combo years' Hv) as [e ->].
  done.
Qed.

(** X12: when all the tokens and all the years are strings no unit fails:
    nothing is reported, and the counter and the progress bar finish at
    the total. *)
Theorem generate_wordlist_strings_no_failure words years schedule :
  valid_schedule (length (all_combos (PStr <$> words))) schedule ->
  exists report,
    generate_wordlist (PStr <$> words) (PStr <$> years) schedule = Some report
    /\ error_log report = []
    /\ processed_count report = estimated_total report
    /\ pbar_count report = estimated_total report.
Proof.
  intros Hs. eexists. split; [by apply generate_wordlist_run|].
  report_fields. split_and!.
  - apply reported_failures_strings.
  - apply successful_results_strings.
  - apply successful_results_strings.
Qed.

Lemma generate_wordlist_strings_no_failure_witness :
  exists report,
    generate_wordlist [PStr "al"; PStr "Bob"] [PStr "99"] [2; 1; 0]
    = Some report
    /\ error_log report = [].
Proof.
  destruct (generate_wordlist_strings_no_failure ["al"; "Bob"] ["99"] [2; 1; 0])
    as (report & Hrun & Hlog & _).
  - apply (bool_decide_unpack _). vm_compute. exact I.
  - exists report. split; [exact Hrun|exact Hlog].
Defined.

(** X13: every token is in the returned list as it was given, and so is
    every token with every year appended and prepended. *)
Theorem generate_wordlist_keeps_tokens words years schedule (t : string) :
  valid_schedule (length (all_combos (PStr <$> words))) schedule ->
  t ∈ words ->
  exists report,
    generate_wordlist (PStr <$> words) (PStr <$> years) schedule = Some report
    /\ t ∈ wordlist report
    /\ forall year, year ∈ years ->
          t ++ year ∈ wordlist report /\ year ++ t ∈ wordlist report.
Proof.
  intros Hs Ht. eexists. split; [by apply generate_wordlist_run|].
  report_fields.
  assert (forall w, mutation_spec [t] years w ->
            w ∈ elements (⋃ successful_results (all_combos (PStr <$> words))
                            (PStr <$> years))) as Hin.
  { intros w Hw. rewrite elem_of_elements, elem_of_successful_results.
    exists (PStr <$> [t]). eexists. split_and!.
    - rewrite all_combos_fmap. apply list_elem_of_fmap_2.
      by apply singleton_in_all_combos.
    - apply process_combo_strings.
    - by apply elem_of_process_combo_strings. }
  split.
  - apply Hin, mutation_spec_single. right. by left.
  - intros year Hy. split; apply Hin, mutation_spec_single; right; right;
      exists year; eauto.
Qed.

Lemma generate_wordlist_keeps_tokens_witness :
  exists report,
    generate_wordlist [PStr "al"; PStr "Bob"] [PStr "99"] [0; 2; 1]
    = Some report
    /\ "Bob" ∈ wordlist report.
Proof.
  destruct (generate_wordlist_keeps_tokens ["al"; "Bob"] ["99"] [0; 2; 1] "Bob")
    as (report & Hrun & Hin & _).
  - apply (bool_decide_unpack _). vm_compute. exact I.
  - apply (bool_decide_unpack _). vm_compute. exact I.
  - exists report. split; [exact Hrun|exact Hin].
Defined.

(** X14: one year that is not a string makes every unit fail, whatever the
    tokens: the run returns the empty list, the counter stays at 0 and
    every combination is reported. *)
Theorem generate_wordlist_non_str_year
    (tokens years' : list pyval) schedule :
  valid_schedule (length (all_combos tokens)) schedule ->
  (exists v, v ∈ years' /\ is_str v = false) ->
  exists report,
    generate_wordlist tokens years' schedule = Some report
    /\ wordlist report = []
    /\ processed_count report = 0
    /\ length (error_log report) = estimated_total report.
Proof.
  intros Hs Hv. eexists. split; [by apply generate_wordlist_run|].
  report_fields.
  pose proof (results_and_failures_length years' (all_combos tokens)) as H.
  rewrite (successful_results_non_str_year _ _ Hv) in *.
  cbn [length union_list foldr] in *. split_and!; [|done|lia].
  apply elements_empty.
Qed.

Lemma generate_wordlist_non_str_year_witness :
  exists report,
    generate_wordlist [PStr "al"; PStr "Bob"] [PStr "99"; PNone] [1; 0; 2]
    = Some report
    /\ wordlist report = [].
Proof.
  destruct (generate_wordlist_non_str_year
              [PStr "al"; PStr "Bob"] [PStr "99"; PNone] [1; 0; 2])
    as (report & Hrun & Hempty & _).
  - apply (bool_decide_unpack _). vm_compute. exact I.
  - exists PNone. split; [|reflexivity].
    apply (bool_decide_unpack _). vm_compute. exact I.
  - exists report. split; [exact Hrun|exact Hempty].
Defined.

End coordinator_runs.

(** ** Console input *)

Section console.

Implicit Types (s t cur : string) (c : ascii).

Lemma space_free_append s t :
  space_free (s ++ t) = space_free s && space_free t.
Proof.
  induction s as [|c s IH]; [done|]. rewrite append_cons. cbn [space_free].
  by rewrite IH, andb_assoc.
Qed.

Lemma split_scan_tokens cur s :
  space_free cur = true -> Forall is_token (split_scan cur s).
Proof.
  revert cur. induction s as [|c s IH]; intros cur Hcur; cbn [split_scan].
  - destruct cur; [done|]. by repeat constructor.
  - destruct (py_isspace c) eqn:Hc.
    + destruct cur; [by apply IH|].
      constructor; [by split|by apply IH].
    + apply IH. rewrite space_free_append. cbn. by rewrite Hcur, Hc.
Qed.

Lemma split_scan_word cur t s :
  space_free t = true -> split_scan cur (t ++ s) = split_scan (cur ++ t) s.
Proof.
  revert cur. induction t as [|c t IH]; intros cur Ht.
  - by rewrite append_empty_r.
  - cbn in Ht. apply andb_true_iff in Ht as [Hc Ht].
    rewrite append_cons. cbn [split_scan].
    destruct (py_isspace c); [done|].
    rewrite IH by done. by rewrite append_assoc.
Qed.

Lemma split_scan_nonempty cur s : cur <> "" -> split_scan cur s <> [].
Proof.
  revert cur. induction s as [|c s IH]; intros cur Hcur; cbn [split_scan].
  - by destruct cur.
  - destruct (py_isspace c); [by destruct cur|].
    apply IH. by intros [_ [=]]%append_eq_empty.
Qed.

Lemma py_split_lstrip s : py_split (py_lstrip s) = py_split s.
Proof.
  unfold py_split. induction s as [|c s IH]; [done|].
  cbn [py_lstrip]. destruct (py_isspace c) eqn:Hc; [|done].
  cbn [split_scan]. by rewrite Hc.
Qed.

Lemma split_scan_rstrip cur s :
  split_scan cur (py_rstrip s) = split_scan cur s.
Proof.
  revert cur. induction s as [|c s IH]; intros cur; [done|].
  cbn [py_rstrip]. destruct (py_rstrip s) as [|c' kept] eqn:E.
  - destruct (py_isspace c) eqn:Hc.
    + cbn [split_scan]. rewrite Hc, <- (IH ""). by destruct cur.
    + cbn [split_scan]. rewrite Hc, <- IH. done.
  - cbn [split_scan]. rewrite <- !IH. done.
Qed.

Lemma py_split_strip s : py_split (py_strip s) = py_split s.
Proof.
  unfold py_strip. rewrite <- (py_split_lstrip s). apply split_scan_rstrip.
Qed.

Lemma py_lstrip_head s :
  py_lstrip s = ""
  \/ exists c rest, py_lstrip s = String c rest /\ py_isspace c = false.
Proof.
  induction s as [|c s IH]; [by left|]. cbn [py_lstrip].
  destruct (py_isspace c) eqn:Hc; [done|]. right. by exists c, s.
Qed.

Lemma py_strip_empty s : py_strip s = "" <-> py_split s = [].
Proof.
  split.
  - intros E. by rewrite <- py_split_strip, E.
  - rewrite <- py_split_lstrip. unfold py_strip.
    destruct (py_lstrip_head s) as [->|(c & rest & -> & Hc)]; [done|].
    unfold py_split. cbn [split_scan]. rewrite Hc.
    intros E. by apply split_scan_nonempty in E.
Qed.

Lemma py_split_join (toks : list string) :
  Forall is_token toks -> py_split (String.concat " " toks) = toks.
Proof.
  unfold py_split. induction 1 as [|t toks [Hne Ht] Htoks IH]; [done|].
  cbn [String.concat]. destruct toks as [|t' toks].
  - pose proof (split_scan_word "" t "" Ht) as E.
    rewrite append_empty_r in E. rewrite E.
    change ("" ++ t) with t. cbn [split_scan]. by destruct t.
  - rewrite split_scan_word by done. change ("" ++ t) with t.
    change (" " ++ String.concat " " (t' :: toks))
      with (String " " (String.concat " " (t' :: toks))).
    cbn [split_scan]. change (py_isspace " ") with true. cbn iota.
    rewrite IH. by destruct t.
Qed.

(** X15: the words that [str.split] cuts out of a line are not empty and
    hold no whitespace. *)
Theorem py_split_gives_tokens (line : string) :
  Forall is_token (py_split line).
Proof. by apply split_scan_tokens. Qed.

(** X16: cutting is the inverse of joining with a space: words that are
    not empty and hold no whitespace come back from the line in which
    they are separated by one space. *)
Theorem py_split_of_joined_tokens (toks : list string) :
  Forall is_token toks -> py_split (String.concat " " toks) = toks.
Proof. apply py_split_join. Qed.

Lemma py_split_of_joined_tokens_witness :
  py_split "al Bob 1999" = ["al"; "Bob"; "1999"].
Proof.
  apply (py_split_of_joined_tokens ["al"; "Bob"; "1999"]).
  repeat constructor; done.
Defined.

(** X17: stripping a line does not change its words, and the stripped
    line is empty exactly when the line has no word: the test [if values]
    of [collect_info] skips exactly the lines that would add nothing. *)
Theorem py_strip_keeps_words (line : string) :
  py_split (py_strip line) = py_split line
  /\ (py_strip line = "" <-> py_split line = []).
Proof. split; [apply py_split_strip|apply py_strip_empty]. Qed.

End console.

(** ** Collecting the tokens *)

Section collecting.

Implicit Types (dict : gmap string (list string)).
Implicit Types (cats answers stdin rest words : list string).

Lemma collect_category_answer category dict words answer rest :
  collect_category category (CollectState dict words (answer :: rest))
  = Some (CollectState (record_answer dict (category, answer))
            (words ++ py_split answer) rest).
Proof.
  unfold collect_category, record_answer.
  cbn [input stdin_left categories all_words mbind option_bind fst snd].
  destruct (py_strip answer) as [|c values] eqn:E.
  - apply py_strip_empty in E. by rewrite E, app_nil_r.
  - by rewrite <- E, py_split_strip.
Qed.

Lemma collect_loop cats answers rest dict words :
  length answers = length cats ->
  for_each_input cats collect_category
    (CollectState dict words (answers ++ rest))
  = Some (CollectState (foldl record_answer dict (zip cats answers))
            (words ++ mjoin (py_split <$> answers)) rest).
Proof.
  revert answers dict words.
  induction cats as [|category cats IH]; intros [|answer answers] dict words;
    try done.
  - intros _. cbn. by rewrite app_nil_r.
  - intros [= Hlen]. cbn [for_each_input app].
    rewrite collect_category_answer. cbn [mbind option_bind].
    rewrite IH by done. cbn. by rewrite <- (assoc_L (++)).
Qed.

Lemma collect_loop_eof cats stdin dict words :
  length stdin < length cats ->
  for_each_input cats collect_category (CollectState dict words stdin) = None.
Proof.
  revert stdin dict words.
  induction cats as [|category cats IH]; intros stdin dict words Hlen;
    [cbn in Hlen; lia|].
  destruct stdin as [|answer stdin]; [done|].
  cbn [for_each_input]. rewrite collect_category_answer. cbn [mbind option_bind].
  apply IH. cbn in Hlen. lia.
Qed.

Lemma record_answer_other dict category answer key :
  key <> category ->
  record_answer dict (category, answer) !! key = dict !! key.
Proof.
  intros Hne. unfold record_answer. cbn [fst snd].
  destruct (py_strip answer); [done|]. by rewrite lookup_insert_ne.
Qed.

Lemma record_answer_here dict category answer :
  dict !! category = Some [] ->
  record_answer dict (category, answer) !! category = Some (py_split answer).
Proof.
  intros Hd. unfold record_answer. cbn [fst snd].
  destruct (py_strip answer) as [|c values] eqn:E.
  - apply py_strip_empty in E. by rewrite E.
  - by rewrite lookup_insert_eq, <- E, py_split_strip.
Qed.

Lemma foldl_record_answer_other cats answers dict key :
  key ∉ cats ->
  foldl record_answer dict (zip cats answers) !! key = dict !! key.
Proof.
  revert answers dict.
  induction cats as [|category cats IH]; intros [|answer answers] dict Hk;
    try done.
  apply not_elem_of_cons in Hk as [Hne Hk]. cbn [zip zip_with foldl].
  rewrite IH by done. by apply record_answer_other.
Qed.

Lemma foldl_record_answer_lookup cats answers dict i key answer :
  NoDup cats -> dict !! key = Some [] ->
  cats !! i = Some key -> answers !! i = Some answer ->
  foldl record_answer dict (zip cats answers) !! key
  = Some (py_split answer).
Proof.
  revert answers dict i.
  induction cats as [|category cats IH]; intros [|a answers] dict i Hnd Hd Hc Ha;
    try done.
  apply NoDup_cons in Hnd as [Hfresh Hnd]. cbn [zip zip_with foldl].
  destruct i as [|i]; cbn in Hc, Ha; simplify_eq.
  - rewrite foldl_record_answer_other by done. by apply record_answer_here.
  - apply (IH _ _ i); [done| |done..].
    rewrite record_answer_other; [done|].
    intros ->. apply Hfresh. by eapply list_elem_of_lookup_2.
Qed.

Lemma CATEGORIES_NoDup : NoDup CATEGORIES.
Proof. apply (bool_decide_unpack _). vm_compute. exact I. Qed.

Lemma collect_info_answers answers rest :
  length answers = 9 ->
  collect_info (answers ++ rest)
  = Some (mjoin (py_split <$> answers),
          default [] (py_split <$> answers !! 4), rest).
Proof.
  intros Hlen. unfold collect_info. cbn zeta.
  rewrite collect_loop by done. cbn [mbind option_bind].
  cbn [all_words categories stdin_left app]. do 3 f_equal.
  destruct (answers !! 4) as [answer|] eqn:E.
  - erewrite (foldl_record_answer_lookup CATEGORIES answers _ 4);
      [done|apply CATEGORIES_NoDup|by vm_compute|done|done].
  - apply lookup_ge_None in E. lia.
Qed.

Lemma collect_info_eof stdin :
  length stdin < 9 -> collect_info stdin = None.
Proof.
  intros Hlen. unfold collect_info. cbn zeta.
  by rewrite collect_loop_eof.
Qed.

Lemma collect_info_returns stdin words years rest :
  collect_info stdin = Some (words, years, rest) ->
  9 <= length stdin
  /\ words = mjoin (py_split <$> take 9 stdin)
  /\ years = default [] (py_split <$> stdin !! 4)
  /\ rest = drop 9 stdin.
Proof.
  intros Hc. destruct (decide (length stdin < 9)) as [Hlt|Hge].
  { by rewrite collect_info_eof in Hc. }
  split; [lia|].
  rewrite <- (take_drop 9 stdin) in Hc at 1.
  rewrite collect_info_answers in Hc by (rewrite length_take; lia).
  rewrite lookup_take_lt in Hc by lia. by simplify_eq.
Qed.

(** X18: [collect_info] reads nine lines, one per category.  The words are
    the words of the nine lines in that order, the years are the words of
    the fifth line, and the lines after the ninth are left unread. *)
Theorem collect_info_reads_nine_lines (answers rest : list string) :
  length answers = 9 ->
  collect_info (answers ++ rest)
  = Some (mjoin (py_split <$> answers),
          default [] (py_split <$> answers !! 4), rest).
Proof. apply collect_info_answers. Qed.

Lemma collect_info_reads_nine_lines_witness :
  collect_info
    ["al  bob"; ""; " "; "Paris"; " 1999 2020"; ""; ""; "rex "; ""; "out.txt"]
  = Some (["al"; "bob"; "Paris"; "1999"; "2020"; "rex"], ["1999"; "2020"],
          ["out.txt"]).
Proof.
  apply (collect_info_reads_nine_lines
           ["al  bob"; ""; " "; "Paris"; " 1999 2020"; ""; ""; "rex "; ""]
           ["out.txt"]).
  reflexivity.
Defined.

(** X19: [collect_info] ends in [EOFError] exactly when fewer than nine
    lines are left on the standard input. *)
Theorem collect_info_eof_iff (stdin : list string) :
  collect_info stdin = None <-> length stdin < 9.
Proof.
  split; [|apply collect_info_eof].
  intros Hnone. destruct (decide (length stdin < 9)) as [|Hge]; [done|].
  rewrite <- (take_drop 9 stdin) in Hnone.
  by rewrite collect_info_answers in Hnone by (rewrite length_take; lia).
Qed.

(** X20: the words that [collect_info] returns are not empty and hold no
    whitespace, and the years are among them, in one block: a year is
    also a token of the combinations. *)
Theorem collect_info_years_are_words (stdin words years rest : list string) :
  collect_info stdin = Some (words, years, rest) ->
  Forall is_token words
  /\ exists before after, words = (before ++ years ++ after)%list.
Proof.
  intros (Hlen & -> & -> & ->)%collect_info_returns. split.
  - apply Forall_join, Forall_fmap, Forall_true.
    intros line. apply split_scan_tokens. done.
  - destruct (stdin !! 4) as [answer|] eqn:E;
      [|apply lookup_ge_None in E; lia].
    assert (take 9 stdin !! 4 = Some answer) as E'
      by (by rewrite lookup_take_lt by lia).
    apply list_elem_of_split_length in E' as (l1 & l2 & Hsplit & _).
    rewrite Hsplit. cbn [default fmap option_fmap option_map].
    exists (mjoin (py_split <$> l1)), (mjoin (py_split <$> l2)).
    by rewrite fmap_app, join_app.
Qed.

Lemma collect_info_years_are_words_witness :
  exists before after,
    ["al"; "1999"; "2020"; "rex"] = (before ++ ["1999"; "2020"] ++ after)%list.
Proof.
  apply (collect_info_years_are_words
           ["al"; ""; ""; ""; "1999 2020"; ""; ""; "rex"; ""]
           ["al"; "1999"; "2020"; "rex"] ["1999"; "2020"] []).
  reflexivity.
Defined.

End collecting.

(** ** Saving the word list *)

Section saving.

Implicit Types (wordlist : list string) (w cur text : string).
Implicit Types (files : gmap string string).










End saving.

(** ** The generated words *)

Section generated_words.

Implicit Types (combo years words : list string) (w word : string).

Lemma py_isspace_lower c : py_isspace (lower c) = py_isspace c.
Proof. by destruct c as [[] [] [] [] [] [] [] []]. Qed.

Lemma LEET_DICT_no_space :
  Forall (fun e : ascii * list ascii =>
            Forall (fun c => py_isspace c = false) e.2) LEET_ENTRIES.
Proof. apply (bool_decide_unpack _). vm_compute. exact I. Qed.

Lemma candidates_no_space c c' :
  py_isspace c = false -> c' ∈ candidates (lower c) -> py_isspace c' = false.
Proof.
  intros Hc. unfold candidates.
  destruct (LEET_DICT !! lower c) as [subs|] eqn:E; cbn [default].
  - apply elem_of_list_to_map_2 in E.
    pose proof LEET_DICT_no_space as Hall. rewrite Forall_forall in Hall.
    specialize (Hall _ E). cbn in Hall. rewrite Forall_forall in Hall.
    apply Hall.
  - intros ->%list_elem_of_singleton. by rewrite py_isspace_lower.
Qed.

Lemma is_variant_space_free word w :
  space_free word = true -> is_variant word w -> space_free w = true.
Proof.
  revert w. induction word as [|c rest IH]; intros [|c' w']; cbn; try done.
  rewrite !andb_true_iff, !negb_true_iff. intros [Hc Hrest] [Hc' Hw].
  split; [by eapply candidates_no_space|by apply IH].
Qed.

Lemma leet_variants_of_tokens word w :
  is_token word -> w ∈ leet_variants_of word -> is_token w.
Proof.
  intros [Hne Hsf]. unfold leet_variants_of. case_match.
  - by intros ->%list_elem_of_singleton.
  - intros Hw%elem_of_leetspeak_variations. split.
    + apply is_variant_length in Hw. intros ->.
      destruct word; [done|]. cbn in Hw. lia.
    + by eapply is_variant_space_free.
Qed.

Lemma is_token_append s t :
  space_free s = true -> space_free t = true -> (s <> "" \/ t <> "") ->
  is_token (s ++ t).
Proof.
  intros Hs Ht Hne. split.
  - intros [-> ->]%append_eq_empty. by destruct Hne.
  - by rewrite space_free_append, Hs, Ht.
Qed.

Lemma concat_tokens (symbol : string) combo :
  space_free symbol = true -> Forall is_token combo -> combo <> [] ->
  is_token (String.concat symbol combo).
Proof.
  intros Hsym Hall Hne. induction Hall as [|t combo [Hnt Ht] Hall IH]; [done|].
  cbn [String.concat]. destruct combo as [|t' combo]; [done|].
  destruct IH as [_ IH]; [done|].
  apply is_token_append; [done| |by left].
  by rewrite space_free_append, Hsym, IH.
Qed.

Lemma JOIN_SYMBOLS_space_free :
  Forall (fun symbol => space_free symbol = true) JOIN_SYMBOLS.
Proof. repeat constructor. Qed.

Lemma year_affixed_token word years w :
  is_token word -> Forall is_token years -> year_affixed word years w ->
  is_token w.
Proof.
  intros [Hne Hsf] Hyears (year & Hy & Hw).
  rewrite Forall_forall in Hyears. destruct (Hyears _ Hy) as [Hny Hsy].
  destruct Hw as [->| ->]; apply is_token_append; auto.
Qed.

Lemma mutation_spec_tokens combo years w :
  Forall is_token combo -> Forall is_token years -> combo <> [] ->
  mutation_spec combo years w -> is_token w.
Proof.
  intros Hcombo Hyears Hne. unfold mutation_spec. cbn zeta.
  rewrite <- leet_variants_of_spec.
  assert (forall symbol, symbol ∈ JOIN_SYMBOLS ->
            is_token (String.concat symbol combo)) as Hjoin.
  { intros symbol Hs. apply concat_tokens; [|done..].
    pose proof JOIN_SYMBOLS_space_free as Hall.
    rewrite Forall_forall in Hall. by apply Hall. }
  intros [(variant & Hv & Hw)|(symbol & Hs & Hw)].
  - assert (is_token variant) as Hvt.
    { eapply leet_variants_of_tokens; [|done].
      apply Hjoin, JOIN_SYMBOLS_empty_symbol. }
    destruct Hw as [->|Hw]; [done|]. by eapply year_affixed_token.
  - destruct Hw as [->|Hw]; [by apply Hjoin|].
    eapply year_affixed_token; [by apply Hjoin|done..].
Qed.

Lemma all_combos_elem_tokens words combo :
  Forall is_token words -> combo ∈ all_combos words ->
  Forall is_token combo /\ combo <> [].
Proof.
  intros Hwords [Hsub Hlen]%elem_of_all_combos. split.
  - rewrite Forall_forall in *. intros t Ht. apply Hwords.
    by eapply sublist_subseteq.
  - intros ->. cbn in Hlen. lia.
Qed.

Lemma wordlist_tokens words years w :
  Forall is_token words -> Forall is_token years ->
  w ∈ ⋃ successful_results (all_combos (PStr <$> words)) (PStr <$> years) ->
  is_token w.
Proof.
  intros Hwords Hyears (combo' & result & Hc & Hr & Hw)%elem_of_successful_results.
  rewrite all_combos_fmap in Hc.
  apply list_elem_of_fmap in Hc as (combo & -> & Hc).
  rewrite process_combo_strings in Hr. simplify_eq.
  apply elem_of_process_combo_strings in Hw.
  destruct (all_combos_elem_tokens _ _ Hwords Hc) as [Hcombo Hne].
  by apply (mutation_spec_tokens combo years w).
Qed.

(** X23: when the tokens and the years are not empty and hold no
    whitespace, neither is any word of the result of a combination that is
    not empty: the substitutions and the join symbols add no whitespace. *)
Theorem process_combo_words_are_tokens combo years :
  Forall is_token combo -> Forall is_token years -> combo <> [] ->
  exists result : gset string,
    process_combo (PStr <$> combo) (PStr <$> years) = Ok result
    /\ forall w, w ∈ result -> is_token w.
Proof.
  intros Hcombo Hyears Hne. eexists. split; [apply process_combo_strings|].
  intros w Hw%elem_of_process_combo_strings.
  by apply (mutation_spec_tokens combo years w).
Qed.

Lemma process_combo_words_are_tokens_witness :
  exists result : gset string,
    process_combo [PStr "al"; PStr "Bob"] [PStr "99"] = Ok result
    /\ forall w, w ∈ result -> is_token w.
Proof.
  apply (process_combo_words_are_tokens ["al"; "Bob"] ["99"]).
  - repeat constructor; done.
  - repeat constructor; done.
  - done.
Defined.

(** X24: when the tokens and the years are not empty and hold no
    whitespace, the returned list holds no empty word and no word with
    whitespace. *)
Theorem generate_wordlist_words_are_tokens words years (schedule : list nat) :
  valid_schedule (length (all_combos (PStr <$> words))) schedule ->
  Forall is_token words -> Forall is_token years ->
  exists report,
    generate_wordlist (PStr <$> words) (PStr <$> years) schedule = Some report
    /\ Forall is_token (wordlist report).
Proof.
  intros Hs Hwords Hyears. eexists. split; [by apply generate_wordlist_run|].
  report_fields. apply Forall_forall. intros w Hw%elem_of_elements.
  by apply (wordlist_tokens words years w).
Qed.

Lemma generate_wordlist_words_are_tokens_witness :
  exists report,
    generate_wordlist [PStr "al"; PStr "Bob"] [PStr "99"] [1; 2; 0]
    = Some report
    /\ Forall is_token (wordlist report).
Proof.
  apply (generate_wordlist_words_are_tokens ["al"; "Bob"] ["99"] [1; 2; 0]).
  - apply (bool_decide_unpack _). vm_compute. exact I.
  - repeat constructor; done.
  - repeat constructor; done.
Defined.

End generated_words.

(** ** The program *)

Section program.

Implicit Types (answers stdin rest words years : list string).
Implicit Types (files : gmap string string) (schedule : list nat).



Lemma all_combos_strings_length words :
  length (all_combos (PStr <$> words)) = length (all_combos words).
Proof. by rewrite all_combos_fmap, length_fmap. Qed.








(** X26: [main] ends in [EOFError] when fewer than nine lines can be read
    for the categories, and also when exactly the nine lines are there:
    the word list is then generated, but there is no line for the file
    name and nothing is saved. *)
Theorem main_ends_on_short_input stdin files schedule :
  (length stdin < 9 -> main stdin files schedule = EOFError)
  /\ (length stdin = 9 ->
      valid_schedule (length (all_combos (mjoin (py_split <$> stdin)))) schedule ->
      main stdin files schedule = EOFError).
Proof.
  split.
  - intros Hlen. unfold main. by rewrite collect_info_eof.
  - intros Hlen Hs. unfold main.
    rewrite <- (app_nil_r stdin) at 1.
    rewrite collect_info_answers by done. cbn zeta.
    by rewrite generate_wordlist_run by (by rewrite all_combos_strings_length).
Qed.

Lemma main_ends_on_short_input_witness :
  main ["al"; ""; ""; ""; "99"; ""; ""; ""; ""] ∅ [2; 0; 1] = EOFError.
Proof.
  apply (main_ends_on_short_input
           ["al"; ""; ""; ""; "99"; ""; ""; ""; ""] ∅ [2; 0; 1]).
  - reflexivity.
  - apply (bool_decide_unpack _). vm_compute. exact I.
Defined.

End program.
